(** * ContestTaskManager: the deposit-and-contest ledger

    A shallow embedding of the Solidity contract [ContestTaskManager]
    (pragma ^0.8.20) and the properties of its contest lifecycle, deposits,
    interest accrual, voting and winner resolution.

    Conventions of the embedding:
    - [uint256] and [address] values are [Z]; Solidity 0.8 arithmetic is
      checked, so [+], [-], [*] and [++] revert with [Panic 0x11] when the
      result leaves [0, 2^256 - 1]; division by a non-zero constant is [Z.div],
      which truncates like the EVM on non-negative operands;
    - a [mapping] is a [gmap] read with the all-zero default record;
    - a function that can revert returns a [Result]; a reverted transaction
      leaves the storage as it was ([transact]);
    - the external [TokenManager] contract is an interface ([Class
      TokenManager]): its state is carried along and [mint] may revert;
    - [nonReentrant] is always passed, since [mint] is not given access to the
      ledger; the ether balance of the contract, and with it [receive], is not
      tracked. *)

From Stdlib Require Import ZArith Lia String.
From stdpp Require Import base option gmap strings list fin_maps.

Local Open Scope string_scope.
Local Open Scope Z_scope.

(** ** Failures and the result monad *)

Inductive Failure : Type :=
| Error (reason : string)                 (* require(cond, reason) *)
| Panic (code : Z)                        (* 0x11: arithmetic over/underflow *)
| OwnableUnauthorizedAccount (account : Z)
| OwnableInvalidOwner (account : Z)
| MintReverted.                           (* tokenManager.mint reverted *)

Inductive Result (A : Type) : Type :=
| Ok (a : A)
| Revert (f : Failure).
Arguments Ok {A} a.
Arguments Revert {A} f.

#[global] Instance result_ret : MRet Result := @Ok.
#[global] Instance result_bind : MBind Result := fun A B k m =>
  match m with
  | Ok a => k a
  | Revert f => Revert f
  end.

Definition require (cond : bool) (reason : string) : Result unit :=
  if cond then Ok tt else Revert (Error reason).

(** The revert reasons of the contract, under the names the specification
    gives them. *)
Definition InvalidAmount : Failure := Error "Deposit amount must be greater than 0".
Definition ContestInactive : Failure := Error "Contest is not active".
Definition AlreadyFinished : Failure := Error "Participant already finished".
Definition NoDeposit : Failure := Error "No deposit found".
Definition VotingClosed : Failure := Error "Voting period has ended".
Definition NotAParticipant : Failure := Error "You must be a participant to vote".
Definition AlreadyVoted : Failure := Error "You have already voted".
Definition NomineeNotParticipant : Failure := Error "Nominee must be a participant".
Definition VotingStillOpen : Failure := Error "Voting period is not over".
Definition ContestStillActive : Failure := Error "Contest is still active".
Definition AlreadyInactive : Failure := Error "Contest is already inactive".

(** ** Checked 256-bit arithmetic *)

Definition MAX_UINT256 : Z := 2 ^ 256 - 1.

Definition checked_add (a b : Z) : Result Z :=
  if a + b <=? MAX_UINT256 then Ok (a + b) else Revert (Panic 17).

Definition checked_sub (a b : Z) : Result Z :=
  if b <=? a then Ok (a - b) else Revert (Panic 17).

Definition checked_mul (a b : Z) : Result Z :=
  if a * b <=? MAX_UINT256 then Ok (a * b) else Revert (Panic 17).

(** ** Constants *)

Definition INTEREST_RATE : Z := 5.
Definition SECONDS_PER_YEAR : Z := 365 * 24 * 60 * 60.

(** The accrual formula as the specification words it: the annual interest
    on the principal, truncated, then prorated by the elapsed seconds and
    truncated again. *)
Definition accrualFormula (principal rate elapsed : Z) : Z :=
  (principal * rate / 100) * elapsed / SECONDS_PER_YEAR.

(** ** Storage layout *)

Record Participant : Type := mkParticipant {
  depositAmount : Z;
  depositTimestamp : Z;
  lastInterestClaimTime : Z;
  votesReceived : Z;
  hasVoted : bool;
  hasFinished : bool;
}.

Record ContestDetails : Type := mkContestDetails {
  title : string;
  description : string;
  goals : string;
  totalDeposited : Z;
  totalInterestGenerated : Z;
  participantsCount : Z;
  votingDeadline : Z;
  active : bool;
}.

(** What an unwritten storage slot reads as. *)
Definition zeroParticipant : Participant :=
  mkParticipant 0 0 0 0 false false.
Definition zeroContest : ContestDetails :=
  mkContestDetails "" "" "" 0 0 0 0 false.

Definition with_depositAmount (p : Participant) (v : Z) : Participant :=
  mkParticipant v (depositTimestamp p) (lastInterestClaimTime p)
                (votesReceived p) (hasVoted p) (hasFinished p).
Definition with_depositTimestamp (p : Participant) (v : Z) : Participant :=
  mkParticipant (depositAmount p) v (lastInterestClaimTime p)
                (votesReceived p) (hasVoted p) (hasFinished p).
Definition with_lastInterestClaimTime (p : Participant) (v : Z) : Participant :=
  mkParticipant (depositAmount p) (depositTimestamp p) v
                (votesReceived p) (hasVoted p) (hasFinished p).
Definition with_votesReceived (p : Participant) (v : Z) : Participant :=
  mkParticipant (depositAmount p) (depositTimestamp p) (lastInterestClaimTime p)
                v (hasVoted p) (hasFinished p).
Definition with_hasVoted (p : Participant) (v : bool) : Participant :=
  mkParticipant (depositAmount p) (depositTimestamp p) (lastInterestClaimTime p)
                (votesReceived p) v (hasFinished p).

Definition with_totalDeposited (c : ContestDetails) (v : Z) : ContestDetails :=
  mkContestDetails (title c) (description c) (goals c) v
                   (totalInterestGenerated c) (participantsCount c)
                   (votingDeadline c) (active c).
Definition with_totalInterestGenerated (c : ContestDetails) (v : Z) : ContestDetails :=
  mkContestDetails (title c) (description c) (goals c) (totalDeposited c)
                   v (participantsCount c) (votingDeadline c) (active c).
Definition with_participantsCount (c : ContestDetails) (v : Z) : ContestDetails :=
  mkContestDetails (title c) (description c) (goals c) (totalDeposited c)
                   (totalInterestGenerated c) v (votingDeadline c) (active c).
Definition with_active (c : ContestDetails) (v : bool) : ContestDetails :=
  mkContestDetails (title c) (description c) (goals c) (totalDeposited c)
                   (totalInterestGenerated c) (participantsCount c)
                   (votingDeadline c) v.

Inductive Event : Type :=
| ContestCreated (contestId : Z) (title : string) (votingDeadline : Z)
| ParticipantJoined (contestId participant amount : Z)
| InterestClaimed (participant contestId interestAmount : Z)
| Voted (contestId voter nominee : Z)
| WinnerAnnounced (contestId winner : Z)
| OwnershipTransferred (previousOwner newOwner : Z).

(** The reward-token contract behind [tokenManager]: [mint to amount] either
    updates the token contract's state or reverts ([None]). *)
Class TokenManager (T : Type) := mint : Z -> Z -> T -> option T.

(** The storage of the ledger, the state of the token contract it calls, and
    the log of emitted events (newest first). *)
Record State (T : Type) : Type := mkState {
  tokenManager : T;
  owner : Z;
  _contestCounter : Z;
  contests : gmap Z ContestDetails;
  contestParticipants : gmap Z (gmap Z Participant);
  events : list Event;
}.
Arguments mkState {T}.
Arguments tokenManager {T}.
Arguments owner {T}.
Arguments _contestCounter {T}.
Arguments contests {T}.
Arguments contestParticipants {T}.
Arguments events {T}.

(** The environment of a call: [msg.sender] and [block.timestamp]. *)
Record Env : Type := mkEnv {
  msg_sender : Z;
  block_timestamp : Z;
}.

Section Ledger.
Context {T : Type} `{!TokenManager T}.

(** *** Reading and writing storage *)

(** [contests[contestId]] *)
Definition contest (s : State T) (contestId : Z) : ContestDetails :=
  default zeroContest (contests s !! contestId).

(** [contestParticipants[contestId]] *)
Definition participantsOf (s : State T) (contestId : Z) : gmap Z Participant :=
  default ∅ (contestParticipants s !! contestId).

(** [contestParticipants[contestId][addr]] *)
Definition participant (s : State T) (contestId addr : Z) : Participant :=
  default zeroParticipant (participantsOf s contestId !! addr).

Definition set_contest (s : State T) (contestId : Z) (c : ContestDetails) : State T :=
  mkState (tokenManager s) (owner s) (_contestCounter s)
          (<[contestId := c]> (contests s)) (contestParticipants s) (events s).

Definition set_participant (s : State T) (contestId addr : Z) (p : Participant) : State T :=
  mkState (tokenManager s) (owner s) (_contestCounter s) (contests s)
          (<[contestId := <[addr := p]> (participantsOf s contestId)]> (contestParticipants s))
          (events s).

Definition set_tokenManager (s : State T) (t : T) : State T :=
  mkState t (owner s) (_contestCounter s) (contests s) (contestParticipants s) (events s).

Definition set_owner (s : State T) (o : Z) : State T :=
  mkState (tokenManager s) o (_contestCounter s) (contests s) (contestParticipants s) (events s).

Definition emit (s : State T) (e : Event) : State T :=
  mkState (tokenManager s) (owner s) (_contestCounter s) (contests s)
          (contestParticipants s) (e :: events s).

(** [Counters.increment]: the library increments inside [unchecked]. *)
Definition increment (s : State T) : State T :=
  mkState (tokenManager s) (owner s) ((_contestCounter s + 1) mod 2 ^ 256)
          (contests s) (contestParticipants s) (events s).

(** The modifier [onlyOwner]. *)
Definition onlyOwner (s : State T) (env : Env) : Result unit :=
  if owner s =? msg_sender env then Ok tt
  else Revert (OwnableUnauthorizedAccount (msg_sender env)).

(** The state the constructor leaves: [Ownable(msg.sender)], everything
    else unwritten. *)
Definition constructor (deployer : Z) (token : T) : State T :=
  mkState token deployer 0 ∅ ∅ [].

(** *** The functions of the contract *)

Definition createContest (s : State T) (env : Env)
    (_title _description _goals : string) (_votingDuration : Z) : Result (State T * Z) :=
  _ ← onlyOwner s env;
  let s := increment s in
  let contestId := _contestCounter s in
  deadline ← checked_add (block_timestamp env) _votingDuration;
  let s := set_contest s contestId
             (mkContestDetails _title _description _goals 0 0 0 deadline true) in
  let s := emit s (ContestCreated contestId _title (votingDeadline (contest s contestId))) in
  Ok (s, contestId).

Definition _claimInterest (s : State T) (env : Env)
    (contestId participantAddress : Z) : Result (State T) :=
  let p := participant s contestId participantAddress in
  _ ← require (0 <? depositAmount p) "No deposit found";
  let currentTime := block_timestamp env in
  elapsedTime ← checked_sub currentTime (lastInterestClaimTime p);
  scaled ← checked_mul (depositAmount p) INTEREST_RATE;
  let annualInterest := scaled / 100 in
  prorated ← checked_mul annualInterest elapsedTime;
  let accruedInterest := prorated / SECONDS_PER_YEAR in
  let s := set_participant s contestId participantAddress
             (with_lastInterestClaimTime p currentTime) in
  if 0 <? accruedInterest then
    match mint participantAddress accruedInterest (tokenManager s) with
    | None => Revert MintReverted
    | Some t =>
        let s := set_tokenManager s t in
        total ← checked_add (totalInterestGenerated (contest s contestId)) accruedInterest;
        let s := set_contest s contestId
                   (with_totalInterestGenerated (contest s contestId) total) in
        Ok (emit s (InterestClaimed participantAddress contestId accruedInterest))
    end
  else Ok s.

Definition claimInterest (s : State T) (env : Env) (contestId : Z) : Result (State T) :=
  _claimInterest s env contestId (msg_sender env).

Definition deposit (s : State T) (env : Env) (msg_value : Z) (contestId : Z)
    : Result (State T) :=
  _ ← require (0 <? msg_value) "Deposit amount must be greater than 0";
  _ ← require (active (contest s contestId)) "Contest is not active";
  _ ← require (negb (hasFinished (participant s contestId (msg_sender env))))
              "Participant already finished";
  s ← (if depositAmount (participant s contestId (msg_sender env)) =? 0 then
         count ← checked_add (participantsCount (contest s contestId)) 1;
         let s := set_contest s contestId
                    (with_participantsCount (contest s contestId) count) in
         Ok (set_participant s contestId (msg_sender env)
               (with_lastInterestClaimTime (participant s contestId (msg_sender env))
                                           (block_timestamp env)))
       else _claimInterest s env contestId (msg_sender env));
  amount ← checked_add (depositAmount (participant s contestId (msg_sender env))) msg_value;
  let s := set_participant s contestId (msg_sender env)
             (with_depositAmount (participant s contestId (msg_sender env)) amount) in
  let s := set_participant s contestId (msg_sender env)
             (with_depositTimestamp (participant s contestId (msg_sender env))
                                    (block_timestamp env)) in
  total ← checked_add (totalDeposited (contest s contestId)) msg_value;
  let s := set_contest s contestId (with_totalDeposited (contest s contestId) total) in
  Ok (emit s (ParticipantJoined contestId (msg_sender env) msg_value)).

Definition vote (s : State T) (env : Env) (contestId nominee : Z) : Result (State T) :=
  _ ← require (block_timestamp env <=? votingDeadline (contest s contestId))
              "Voting period has ended";
  _ ← require (active (contest s contestId)) "Contest is not active";
  let voter := participant s contestId (msg_sender env) in
  let nomineeParticipant := participant s contestId nominee in
  _ ← require (0 <? depositAmount voter) "You must be a participant to vote";
  _ ← require (negb (hasVoted voter)) "You have already voted";
  _ ← require (0 <? depositAmount nomineeParticipant) "Nominee must be a participant";
  let s := set_participant s contestId (msg_sender env) (with_hasVoted voter true) in
  votes ← checked_add (votesReceived (participant s contestId nominee)) 1;
  let s := set_participant s contestId nominee
             (with_votesReceived (participant s contestId nominee) votes) in
  Ok (emit s (Voted contestId (msg_sender env) nominee)).

(** The body of the [for] loop of [getWinner], run [n] more times on the
    locals [(maxVotes, currentWinner)]. *)
Fixpoint getWinner_loop (s : State T) (contestId : Z) (n : nat)
    (maxVotes currentWinner : Z) : Z * Z :=
  match n with
  | O => (maxVotes, currentWinner)
  | S n' =>
      let p := participant s contestId currentWinner in
      if maxVotes <? votesReceived p
      then getWinner_loop s contestId n' (votesReceived p) currentWinner
      else getWinner_loop s contestId n' maxVotes currentWinner
  end.

Definition getWinner (s : State T) (now : Z) (contestId : Z) : Result Z :=
  _ ← require (votingDeadline (contest s contestId) <? now) "Voting period is not over";
  _ ← require (active (contest s contestId)) "Contest is still active";
  Ok (snd (getWinner_loop s contestId
             (Z.to_nat (participantsCount (contest s contestId))) 0 0)).

Definition endContest (s : State T) (env : Env) (contestId : Z) : Result (State T) :=
  _ ← onlyOwner s env;
  _ ← require (active (contest s contestId)) "Contest is already inactive";
  let s := set_contest s contestId (with_active (contest s contestId) false) in
  winner ← getWinner s (block_timestamp env) contestId;
  Ok (emit s (WinnerAnnounced contestId winner)).

Definition getAccruedInterest (s : State T) (now : Z)
    (contestId participantAddress : Z) : Result Z :=
  let p := participant s contestId participantAddress in
  if depositAmount p =? 0 then Ok 0
  else
    elapsedTime ← checked_sub now (lastInterestClaimTime p);
    scaled ← checked_mul (depositAmount p) INTEREST_RATE;
    let annualInterest := scaled / 100 in
    prorated ← checked_mul annualInterest elapsedTime;
    Ok (prorated / SECONDS_PER_YEAR).

(** The two administrative functions inherited from [Ownable]. *)
Definition transferOwnership (s : State T) (env : Env) (newOwner : Z) : Result (State T) :=
  _ ← onlyOwner s env;
  if newOwner =? 0 then Revert (OwnableInvalidOwner 0)
  else Ok (emit (set_owner s newOwner) (OwnershipTransferred (owner s) newOwner)).

Definition renounceOwnership (s : State T) (env : Env) : Result (State T) :=
  _ ← onlyOwner s env;
  Ok (emit (set_owner s 0) (OwnershipTransferred (owner s) 0)).

(** *** Transactions *)

Inductive Call : Type :=
| CreateContest (_title _description _goals : string) (_votingDuration : Z)
| Deposit (contestId msg_value : Z)
| ClaimInterest (contestId : Z)
| Vote (contestId nominee : Z)
| EndContest (contestId : Z)
| TransferOwnership (newOwner : Z)
| RenounceOwnership.

Definition call (s : State T) (env : Env) (c : Call) : Result (State T) :=
  match c with
  | CreateContest t d g dur =>
    match createContest s env t d g dur with
    | Ok (s', _) => Ok s'
    | Revert f => Revert f
    end
  | Deposit contestId v => deposit s env v contestId
  | ClaimInterest contestId => claimInterest s env contestId
  | Vote contestId nominee => vote s env contestId nominee
  | EndContest contestId => endContest s env contestId
  | TransferOwnership o => transferOwnership s env o
  | RenounceOwnership => renounceOwnership s env
  end.

(** A transaction either commits the state the call returns or reverts to
    the state it started from. *)
Definition transact (s : State T) (tx : Env * Call) : State T :=
  match call s (fst tx) (snd tx) with
  | Ok s' => s'
  | Revert _ => s
  end.

Definition failure (s : State T) (tx : Env * Call) : option Failure :=
  match call s (fst tx) (snd tx) with
  | Ok _ => None
  | Revert f => Some f
  end.

Definition run (s : State T) (txs : list (Env * Call)) : State T :=
  foldl transact s txs.

(** [reachable n s]: [s] is the storage after [n] successful calls on a
    freshly deployed ledger. *)
Inductive reachable : nat -> State T -> Prop :=
| reachable_deployed deployer token : reachable O (constructor deployer token)
| reachable_call n s env c s' :
    reachable n s -> call s env c = Ok s' -> reachable (S n) s'.

(** The sum of the deposits of the participants of one contest. *)
Definition sumDeposits (m : gmap Z Participant) : Z :=
  map_fold (fun _ p acc => depositAmount p + acc) 0 m.

(** *** What a call does to the deposits *)

(** [contestId] is one of the identifiers [createContest] has handed out. *)
Definition created (s : State T) (contestId : Z) : Prop :=
  1 <= contestId <= _contestCounter s.

(** Every contest's [totalDeposited] is the sum of its participants'
    [depositAmount]. *)
Definition balanced (s : State T) : Prop :=
  forall contestId,
    totalDeposited (contest s contestId) = sumDeposits (participantsOf s contestId).

(** An identifier not handed out yet names an inactive contest in which
    nobody holds a deposit. *)
Definition unused_untouched (s : State T) : Prop :=
  forall contestId, ~ created s contestId ->
    active (contest s contestId) = false /\
    forall a, depositAmount (participant s contestId a) = 0.

(** [s'] holds the deposits, totals, flags and counter of [s]; votes cast
    stay cast. *)
Record same_deposits (s s' : State T) : Prop := mk_same_deposits {
  sd_counter : _contestCounter s' = _contestCounter s;
  sd_deposit : forall j b,
    depositAmount (participant s' j b) = depositAmount (participant s j b);
  sd_voted : forall j b,
    hasVoted (participant s j b) = true -> hasVoted (participant s' j b) = true;
  sd_total : forall j, totalDeposited (contest s' j) = totalDeposited (contest s j);
  sd_deadline : forall j, votingDeadline (contest s' j) = votingDeadline (contest s j);
  sd_active : forall j, active (contest s' j) = active (contest s j);
  sd_sum : forall j,
    sumDeposits (participantsOf s' j) = sumDeposits (participantsOf s j);
}.

(** [s'] is [s] with [amount] more on the deposit of [a] in contest [i] and on
    the total of that contest. *)
Record credited (s s' : State T) (i a amount : Z) : Prop := mk_credited {
  cr_counter : _contestCounter s' = _contestCounter s;
  cr_deposit : forall j b,
    depositAmount (participant s' j b) =
    depositAmount (participant s j b) + (if decide ((i, a) = (j, b)) then amount else 0);
  cr_voted : forall j b,
    hasVoted (participant s j b) = true -> hasVoted (participant s' j b) = true;
  cr_total : forall j,
    totalDeposited (contest s' j) =
    totalDeposited (contest s j) + (if decide (i = j) then amount else 0);
  cr_deadline : forall j, votingDeadline (contest s' j) = votingDeadline (contest s j);
  cr_active : forall j, active (contest s' j) = active (contest s j);
  cr_sum : forall j,
    sumDeposits (participantsOf s' j) =
    sumDeposits (participantsOf s j) + (if decide (i = j) then amount else 0);
}.

End Ledger.

(** ** Measures over the participants of a contest and over the log *)

(** The sum of [f] over the stored participants of one contest. *)
Definition sumOver (f : Participant -> Z) (m : gmap Z Participant) : Z :=
  map_fold (fun _ p acc => f p + acc) 0 m.

(** One for a participant who has voted, one for a participant who holds a
    deposit. *)
Definition votedUnit (p : Participant) : Z := if hasVoted p then 1 else 0.
Definition fundedUnit (p : Participant) : Z := if depositAmount p =? 0 then 0 else 1.

Definition sumVotes (m : gmap Z Participant) : Z := sumOver votesReceived m.
Definition countVoted (m : gmap Z Participant) : Z := sumOver votedUnit m.
Definition countFunded (m : gmap Z Participant) : Z := sumOver fundedUnit m.

(** The interest the [InterestClaimed] events of a log report for one
    contest. *)
Fixpoint interestClaimedFor (contestId : Z) (log : list Event) : Z :=
  match log with
  | [] => 0
  | InterestClaimed _ i interestAmount :: rest =>
      (if i =? contestId then interestAmount else 0) + interestClaimedFor contestId rest
  | _ :: rest => interestClaimedFor contestId rest
  end.

Definition isWinnerAnnounced (e : Event) : bool :=
  match e with
  | WinnerAnnounced _ _ => true
  | _ => false
  end.

(** ** A concrete deployment

    A token contract that logs every mint and never reverts, three accounts,
    and the ledger after a contest with a one-hour voting window has been
    created, funded and voted on. *)

#[global] Instance MintLog : TokenManager (list (Z * Z)) :=
  fun to amount log => Some ((to, amount) :: log).

Definition deployer : Z := 100.
Definition alice : Z := 101.
Definition bob : Z := 102.

Definition deployed : State (list (Z * Z)) := constructor deployer [].

Definition funding : list (Env * Call) :=
  [ (mkEnv deployer 0, CreateContest "Habit" "Run every day" "Thirty days" 3600);
    (mkEnv alice 0, Deposit 1 1000);
    (mkEnv bob 10, Deposit 1 500) ].

Definition voting : list (Env * Call) :=
  [ (mkEnv alice 20, Vote 1 bob);
    (mkEnv bob 30, Vote 1 bob) ].

Definition funded : State (list (Z * Z)) := run deployed funding.
Definition voted : State (list (Z * Z)) := run funded voting.

(** A storage in which contest 1 is inactive while [alice] holds a deposit in
    it: what [voted] would be had [endContest] cleared the flag. *)
Definition ended : State (list (Z * Z)) :=
  set_contest voted 1 (with_active (contest voted 1) false).

(** * Properties *)

(** ** The result monad and checked arithmetic *)

Lemma bind_Ok {A B : Type} (m : Result A) (k : A -> Result B) (b : B) :
  m ≫= k = Ok b <-> exists a, m = Ok a /\ k a = Ok b.
Proof.
  destruct m as [a|f]; cbn; split.
  - intros Hk. exists a. split; [reflexivity | exact Hk].
  - intros (a' & Ha & Hk). injection Ha as ->. exact Hk.
  - discriminate.
  - intros (a' & Ha & _). discriminate.
Qed.

Lemma require_Ok (cond : bool) (reason : string) (u : unit) :
  require cond reason = Ok u <-> cond = true.
Proof. destruct cond, u; cbn; split; congruence. Qed.

Lemma require_true (reason : string) : require true reason = Ok tt.
Proof. reflexivity. Qed.

Lemma checked_add_Ok (a b c : Z) :
  checked_add a b = Ok c <-> c = a + b /\ a + b <= MAX_UINT256.
Proof.
  unfold checked_add. destruct (Z.leb_spec (a + b) MAX_UINT256); split.
  - intros [= <-]. split; [reflexivity | assumption].
  - intros [-> _]. reflexivity.
  - discriminate.
  - intros [_ Hle]. lia.
Qed.

Lemma checked_sub_Ok (a b c : Z) :
  checked_sub a b = Ok c <-> c = a - b /\ b <= a.
Proof.
  unfold checked_sub. destruct (Z.leb_spec b a); split.
  - intros [= <-]. split; [reflexivity | assumption].
  - intros [-> _]. reflexivity.
  - discriminate.
  - intros [_ Hle]. lia.
Qed.

Lemma checked_mul_Ok (a b c : Z) :
  checked_mul a b = Ok c <-> c = a * b /\ a * b <= MAX_UINT256.
Proof.
  unfold checked_mul. destruct (Z.leb_spec (a * b) MAX_UINT256); split.
  - intros [= <-]. split; [reflexivity | assumption].
  - intros [-> _]. reflexivity.
  - discriminate.
  - intros [_ Hle]. lia.
Qed.

Lemma checked_add_in_range (a b : Z) :
  a + b <= MAX_UINT256 -> checked_add a b = Ok (a + b).
Proof. intros Hle. apply checked_add_Ok. auto. Qed.

Lemma checked_sub_in_range (a b : Z) : b <= a -> checked_sub a b = Ok (a - b).
Proof. intros Hle. apply checked_sub_Ok. auto. Qed.

Lemma checked_mul_in_range (a b : Z) :
  a * b <= MAX_UINT256 -> checked_mul a b = Ok (a * b).
Proof. intros Hle. apply checked_mul_Ok. auto. Qed.

(** Splits a conjunction into its conjuncts, without touching them. *)
Ltac split_conj := repeat match goal with |- _ /\ _ => split end.

(** Splits a hypothesis [H : ... = Ok _] along the binds, requires and
    checked operations of a function body. *)
Ltac invert_Ok H :=
  repeat match type of H with
    | mbind _ (require _ _) = Ok _ =>
        let u := fresh "u" in let Hc := fresh "Hreq" in
        apply bind_Ok in H; destruct H as (u & Hc & H);
        apply require_Ok in Hc
    | mbind _ (checked_add _ _) = Ok _ =>
        let x := fresh "x" in let Hx := fresh "Hadd" in
        apply bind_Ok in H; destruct H as (x & Hx & H);
        apply checked_add_Ok in Hx; destruct Hx as [-> Hx]
    | mbind _ (checked_sub _ _) = Ok _ =>
        let x := fresh "x" in let Hx := fresh "Hsub" in
        apply bind_Ok in H; destruct H as (x & Hx & H);
        apply checked_sub_Ok in Hx; destruct Hx as [-> Hx]
    | mbind _ (checked_mul _ _) = Ok _ =>
        let x := fresh "x" in let Hx := fresh "Hmul" in
        apply bind_Ok in H; destruct H as (x & Hx & H);
        apply checked_mul_Ok in Hx; destruct Hx as [-> Hx]
    | mbind _ _ = Ok _ =>
        let x := fresh "x" in let Hx := fresh "Hx" in
        apply bind_Ok in H; destruct H as (x & Hx & H)
    end.

Section Storage.
Context {T : Type} `{!TokenManager T}.
Implicit Types (s : State T) (i j a b : Z) (c : ContestDetails) (p : Participant).

(** ** Reading after writing *)

Lemma contest_set_contest s i c j :
  contest (set_contest s i c) j = if decide (i = j) then c else contest s j.
Proof.
  unfold contest, set_contest; cbn. rewrite lookup_insert.
  destruct (decide (i = j)); reflexivity.
Qed.

Lemma contest_set_contest_eq s i c : contest (set_contest s i c) i = c.
Proof. rewrite contest_set_contest. destruct (decide (i = i)); congruence. Qed.

Lemma contest_set_contest_ne s i c j :
  i <> j -> contest (set_contest s i c) j = contest s j.
Proof. intros Hne. rewrite contest_set_contest. destruct (decide (i = j)); congruence. Qed.

Lemma participantsOf_set_contest s i c j :
  participantsOf (set_contest s i c) j = participantsOf s j.
Proof. reflexivity. Qed.

Lemma participant_set_contest s i c j b :
  participant (set_contest s i c) j b = participant s j b.
Proof. reflexivity. Qed.

Lemma contest_set_participant s i a p j :
  contest (set_participant s i a p) j = contest s j.
Proof. reflexivity. Qed.

Lemma participantsOf_set_participant s i a p j :
  participantsOf (set_participant s i a p) j =
  if decide (i = j) then <[a := p]> (participantsOf s i) else participantsOf s j.
Proof.
  unfold participantsOf at 1. unfold set_participant; cbn. rewrite lookup_insert.
  destruct (decide (i = j)); reflexivity.
Qed.

Lemma participant_set_participant s i a p j b :
  participant (set_participant s i a p) j b =
  if decide (i = j /\ a = b) then p else participant s j b.
Proof.
  unfold participant at 1. rewrite participantsOf_set_participant.
  destruct (decide (i = j)) as [->|Hij].
  - rewrite lookup_insert. destruct (decide (a = b)) as [->|Hab].
    + destruct (decide (j = j /\ b = b)) as [_|Hn]; [reflexivity | tauto].
    + destruct (decide (j = j /\ a = b)) as [[_ Heq]|_]; [contradiction | reflexivity].
  - destruct (decide (i = j /\ a = b)) as [[Heq _]|_]; [contradiction | reflexivity].
Qed.

Lemma participant_set_participant_eq s i a p :
  participant (set_participant s i a p) i a = p.
Proof.
  rewrite participant_set_participant.
  destruct (decide (i = i /\ a = a)) as [_|Hn]; [reflexivity | tauto].
Qed.

Lemma participant_set_participant_ne s i a p j b :
  (i, a) <> (j, b) -> participant (set_participant s i a p) j b = participant s j b.
Proof.
  intros Hne. rewrite participant_set_participant.
  destruct (decide (i = j /\ a = b)) as [[-> ->]|_]; [congruence | reflexivity].
Qed.

Lemma contest_emit s e j : contest (emit s e) j = contest s j.
Proof. reflexivity. Qed.

Lemma participant_emit s e j b : participant (emit s e) j b = participant s j b.
Proof. reflexivity. Qed.

Lemma participantsOf_emit s e j : participantsOf (emit s e) j = participantsOf s j.
Proof. reflexivity. Qed.

Lemma contest_set_tokenManager s (t : T) j : contest (set_tokenManager s t) j = contest s j.
Proof. reflexivity. Qed.

Lemma participant_set_tokenManager s (t : T) j b :
  participant (set_tokenManager s t) j b = participant s j b.
Proof. reflexivity. Qed.

Lemma participantsOf_set_tokenManager s (t : T) j :
  participantsOf (set_tokenManager s t) j = participantsOf s j.
Proof. reflexivity. Qed.

(** Writing the record that was just written is no write at all. *)
Lemma set_participant_again s i a p :
  set_participant (set_participant s i a p) i a p = set_participant s i a p.
Proof.
  unfold set_participant at 1. rewrite participantsOf_set_participant.
  destruct (decide (i = i)) as [_|Hn]; [|congruence].
  unfold set_participant; cbn. rewrite !insert_insert_eq. reflexivity.
Qed.

Lemma set_participant_set_tokenManager s (t : T) i a p :
  set_participant (set_tokenManager s t) i a p = set_tokenManager (set_participant s i a p) t.
Proof. reflexivity. Qed.

Lemma set_participant_set_contest s j c i a p :
  set_participant (set_contest s j c) i a p = set_contest (set_participant s i a p) j c.
Proof. reflexivity. Qed.

Lemma set_participant_emit s e i a p :
  set_participant (emit s e) i a p = emit (set_participant s i a p) e.
Proof. reflexivity. Qed.

End Storage.

Create Rewrite HintDb storage.
#[export] Hint Rewrite
  @contest_set_contest_eq @participantsOf_set_contest @participant_set_contest
  @contest_set_participant @participant_set_participant_eq
  @contest_emit @participant_emit @participantsOf_emit
  @contest_set_tokenManager @participant_set_tokenManager
  @participantsOf_set_tokenManager : storage.

(** ** Winner resolution and the end of a contest *)

Section Winner.
Context {T : Type} `{!TokenManager T}.
Implicit Types (s : State T) (env : Env).

(** The loop never assigns a new address to [currentWinner]. *)
Lemma getWinner_loop_winner s contestId n maxVotes currentWinner :
  snd (getWinner_loop s contestId n maxVotes currentWinner) = currentWinner.
Proof.
  revert maxVotes. induction n as [|n IH]; intros maxVotes; cbn.
  - reflexivity.
  - destruct (maxVotes <? _); apply IH.
Qed.

(** What [getWinner] does, guard by guard. *)
Lemma getWinner_outcome s now contestId :
  getWinner s now contestId =
  if now <=? votingDeadline (contest s contestId) then Revert VotingStillOpen
  else if active (contest s contestId) then Ok 0
  else Revert ContestStillActive.
Proof.
  unfold getWinner. rewrite getWinner_loop_winner.
  destruct (Z.leb_spec now (votingDeadline (contest s contestId))) as [Hle|Hlt].
  - replace (_ <? now) with false by (symmetry; apply Z.ltb_ge; exact Hle).
    reflexivity.
  - replace (_ <? now) with true by (symmetry; apply Z.ltb_lt; exact Hlt).
    destruct (active (contest s contestId)); reflexivity.
Qed.

Lemma getWinner_Ok s now contestId winner :
  getWinner s now contestId = Ok winner ->
  winner = 0 /\ active (contest s contestId) = true /\
  votingDeadline (contest s contestId) < now.
Proof.
  rewrite getWinner_outcome.
  destruct (Z.leb_spec now (votingDeadline (contest s contestId))); [discriminate|].
  destruct (active (contest s contestId)); [|discriminate].
  intros [= <-]. auto.
Qed.

(** [endContest] clears [active] and then asks [getWinner], which insists
    on [active]: the call reverts whatever the state and the caller. *)
Lemma endContest_outcome s env contestId :
  endContest s env contestId =
  if negb (owner s =? msg_sender env) then Revert (OwnableUnauthorizedAccount (msg_sender env))
  else if negb (active (contest s contestId)) then Revert AlreadyInactive
  else if block_timestamp env <=? votingDeadline (contest s contestId)
       then Revert VotingStillOpen
       else Revert ContestStillActive.
Proof.
  unfold endContest, onlyOwner.
  destruct (owner s =? msg_sender env); [|reflexivity]. cbn [negb mbind result_bind].
  destruct (active (contest s contestId)) eqn:Hact; [|reflexivity].
  cbn [require negb mbind result_bind]. rewrite getWinner_outcome.
  rewrite contest_set_contest_eq. cbn.
  destruct (_ <=? _); reflexivity.
Qed.

Lemma endContest_never_succeeds s env contestId :
  exists f, endContest s env contestId = Revert f.
Proof.
  rewrite endContest_outcome.
  repeat match goal with |- context [if ?b then _ else _] => destruct b end; eauto.
Qed.

End Winner.

(** Claim C1. After the voting deadline [getWinner] is to name a participant
    whose [votesReceived] no other participant exceeds. On the ledger
    [voted], where [bob] holds both votes, the call made after the deadline
    returns the zero address, which has no deposit and no votes; and on a
    contest that is not active (contest 1 of [ended], or the never-created
    contest 1 of [deployed]) it reverts instead of returning. *)
Theorem getWinner_returns_zero_address :
  getWinner voted 3601 1 = Ok 0 /\
  votesReceived (participant voted 1 bob) = 2 /\
  depositAmount (participant voted 1 0) = 0 /\
  votesReceived (participant voted 1 0) = 0 /\
  getWinner ended 3601 1 = Revert ContestStillActive /\
  getWinner deployed 1 1 = Revert ContestStillActive.
Proof. split_conj; vm_compute; reflexivity. Qed.

(** Claim C2. [endContest] on an active contest is to succeed, clear [active]
    and announce the winner. Called by the owner on the active contest 1 of
    [voted], it reverts both before and after the voting deadline, so the
    contest stays active and no winner is announced. *)
Theorem endContest_reverts_on_active_contest :
  active (contest voted 1) = true /\
  owner voted = deployer /\
  endContest voted (mkEnv deployer 3601) 1 = Revert ContestStillActive /\
  endContest voted (mkEnv deployer 100) 1 = Revert VotingStillOpen /\
  transact voted (mkEnv deployer 3601, EndContest 1) = voted /\
  endContest ended (mkEnv deployer 3601) 1 = Revert AlreadyInactive.
Proof. split_conj; vm_compute; reflexivity. Qed.

(** Claim C7. [getWinner] is to fail with [ContestStillActive] on an active
    contest and to succeed on an inactive one after the deadline. On [voted]
    contest 1 is active and the call after the deadline succeeds; on the
    freshly deployed ledger contest 1 is inactive with deadline 0, and the
    call at time 1 fails with [ContestStillActive], as it does on [ended].
    Before the deadline the call fails with [VotingStillOpen], as stated. *)
Theorem getWinner_active_guard_inverted :
  active (contest voted 1) = true /\
  getWinner voted 3601 1 = Ok 0 /\
  active (contest deployed 1) = false /\
  votingDeadline (contest deployed 1) = 0 /\
  getWinner deployed 1 1 = Revert ContestStillActive /\
  active (contest ended 1) = false /\
  getWinner ended 3601 1 = Revert ContestStillActive /\
  getWinner voted 3600 1 = Revert VotingStillOpen.
Proof. split_conj; vm_compute; reflexivity. Qed.

(** ** Interest accrual *)

Section Accrual.
Context {T : Type} `{!TokenManager T}.
Implicit Types (s : State T) (env : Env).

(** The storage after a settlement of [accrued] units for [a] whose mint
    left the token contract in state [t]. *)
Lemma _claimInterest_Ok s env contestId a s' :
  _claimInterest s env contestId a = Ok s' ->
  let p := participant s contestId a in
  let now := block_timestamp env in
  let accrued :=
    accrualFormula (depositAmount p) INTEREST_RATE (now - lastInterestClaimTime p) in
  let s1 := set_participant s contestId a (with_lastInterestClaimTime p now) in
  0 < depositAmount p /\ lastInterestClaimTime p <= now /\
  depositAmount p * INTEREST_RATE <= MAX_UINT256 /\
  ((accrued <= 0 /\ s' = s1) \/
   (0 < accrued /\
    exists t, mint a accrued (tokenManager s) = Some t /\
      s' = emit (set_contest (set_tokenManager s1 t) contestId
                   (with_totalInterestGenerated (contest s contestId)
                      (totalInterestGenerated (contest s contestId) + accrued)))
                (InterestClaimed a contestId accrued))).
Proof.
  intros H p now accrued s1. unfold _claimInterest in H. invert_Ok H.
  apply Z.ltb_lt in Hreq. fold p in H, Hreq, Hsub, Hmul, Hmul0 |- *.
  fold now in H, Hsub, Hmul0 |- *.
  change (depositAmount p * INTEREST_RATE / 100 * (now - lastInterestClaimTime p)
            / SECONDS_PER_YEAR) with accrued in H.
  fold s1 in H.
  split; [exact Hreq|]. split; [exact Hsub|]. split; [exact Hmul|].
  destruct (Z.ltb_spec 0 accrued) as [Hpos|Hle].
  - right. split; [exact Hpos|].
    change (tokenManager s1) with (tokenManager s) in H.
    destruct (mint a accrued (tokenManager s)) as [t|]; [|discriminate].
    exists t. split; [reflexivity|]. invert_Ok H. injection H as <-. reflexivity.
  - left. injection H as <-. split; [exact Hle | reflexivity].
Qed.

(** A settlement goes through when no intermediate value leaves the range of
    [uint256] and the mint, if there is one, does not revert. *)
Lemma _claimInterest_succeeds s env contestId a :
  let p := participant s contestId a in
  let now := block_timestamp env in
  let accrued :=
    accrualFormula (depositAmount p) INTEREST_RATE (now - lastInterestClaimTime p) in
  0 < depositAmount p -> lastInterestClaimTime p <= now ->
  depositAmount p * INTEREST_RATE <= MAX_UINT256 ->
  depositAmount p * INTEREST_RATE / 100 * (now - lastInterestClaimTime p) <= MAX_UINT256 ->
  (0 < accrued ->
   is_Some (mint a accrued (tokenManager s)) /\
   totalInterestGenerated (contest s contestId) + accrued <= MAX_UINT256) ->
  exists s', _claimInterest s env contestId a = Ok s'.
Proof.
  intros p now accrued Hd Ht Hm1 Hm2 Hmint. unfold _claimInterest.
  fold p. fold now.
  replace (0 <? depositAmount p) with true by (symmetry; apply Z.ltb_lt; exact Hd).
  rewrite require_true, (checked_sub_in_range _ _ Ht), (checked_mul_in_range _ _ Hm1).
  cbn [mbind result_bind].
  rewrite (checked_mul_in_range _ _ Hm2). cbn [mbind result_bind].
  change (depositAmount p * INTEREST_RATE / 100 * (now - lastInterestClaimTime p)
            / SECONDS_PER_YEAR) with accrued.
  destruct (Z.ltb_spec 0 accrued) as [Hpos|Hle]; [|eauto].
  destruct (Hmint Hpos) as [[t Ht'] Htot].
  change (tokenManager (set_participant _ _ _ _)) with (tokenManager s).
  rewrite Ht', contest_set_tokenManager, contest_set_participant.
  rewrite (checked_add_in_range _ _ Htot). cbn [mbind result_bind]. eauto.
Qed.

(** What the read-only projection returns when it returns. *)
Lemma getAccruedInterest_Ok s now contestId a v :
  getAccruedInterest s now contestId a = Ok v ->
  let p := participant s contestId a in
  (depositAmount p = 0 /\ v = 0) \/
  (depositAmount p <> 0 /\ lastInterestClaimTime p <= now /\
   v = accrualFormula (depositAmount p) INTEREST_RATE (now - lastInterestClaimTime p)).
Proof.
  intros H p. unfold getAccruedInterest in H. cbv zeta in H. fold p in H.
  destruct (Z.eqb_spec (depositAmount p) 0) as [Hz|Hnz].
  - left. injection H as <-. auto.
  - right. invert_Ok H. injection H as <-. auto.
Qed.

Lemma getAccruedInterest_succeeds s now contestId a :
  let p := participant s contestId a in
  depositAmount p <> 0 -> lastInterestClaimTime p <= now ->
  depositAmount p * INTEREST_RATE <= MAX_UINT256 ->
  depositAmount p * INTEREST_RATE / 100 * (now - lastInterestClaimTime p) <= MAX_UINT256 ->
  getAccruedInterest s now contestId a =
  Ok (accrualFormula (depositAmount p) INTEREST_RATE (now - lastInterestClaimTime p)).
Proof.
  intros p Hd Ht Hm1 Hm2. unfold getAccruedInterest. cbv zeta. fold p.
  destruct (Z.eqb_spec (depositAmount p) 0) as [Hz|_]; [contradiction|].
  rewrite (checked_sub_in_range _ _ Ht), (checked_mul_in_range _ _ Hm1).
  cbn [mbind result_bind].
  rewrite (checked_mul_in_range _ _ Hm2). reflexivity.
Qed.

Lemma getAccruedInterest_no_deposit s now contestId a :
  depositAmount (participant s contestId a) = 0 ->
  getAccruedInterest s now contestId a = Ok 0.
Proof.
  intros Hz. unfold getAccruedInterest. cbv zeta. rewrite Hz. reflexivity.
Qed.

End Accrual.

Lemma accrualFormula_nonneg (principal elapsed : Z) :
  0 <= principal -> 0 <= elapsed -> 0 <= accrualFormula principal INTEREST_RATE elapsed.
Proof.
  intros Hp He. unfold accrualFormula, INTEREST_RATE, SECONDS_PER_YEAR.
  apply Z.div_pos; [|lia]. apply Z.mul_nonneg_nonneg; [|exact He].
  apply Z.div_pos; lia.
Qed.

Lemma accrualFormula_no_time (principal : Z) :
  accrualFormula principal INTEREST_RATE 0 = 0.
Proof. unfold accrualFormula. rewrite Z.mul_0_r. reflexivity. Qed.

(** Claim C4. For a participant with a positive deposit, what
    [getAccruedInterest] returns and what [claimInterest] settles (adds to
    [totalInterestGenerated], mints and reports in [InterestClaimed]) is
    [floor(floor(d * 5 / 100) * (now - lastInterestClaimTime) / SECONDS_PER_YEAR)],
    and both go through when the clock has not gone back and the two products
    stay within [uint256]. A deposit of 1000 made at time 0 shows 50 after one
    year, and a participant without a deposit shows 0. *)
Theorem accrued_interest_formula :
  (forall (T : Type) (TM : TokenManager T) (s : State T) (env : Env) (contestId : Z),
     let a := msg_sender env in
     let now := block_timestamp env in
     let p := participant s contestId a in
     let accrued :=
       accrualFormula (depositAmount p) INTEREST_RATE (now - lastInterestClaimTime p) in
     0 < depositAmount p ->
     (forall v, getAccruedInterest s now contestId a = Ok v -> v = accrued) /\
     (forall s', claimInterest s env contestId = Ok s' ->
        totalInterestGenerated (contest s' contestId) =
          totalInterestGenerated (contest s contestId) + accrued /\
        (0 < accrued ->
           mint a accrued (tokenManager s) = Some (tokenManager s') /\
           events s' = InterestClaimed a contestId accrued :: events s) /\
        (accrued = 0 -> tokenManager s' = tokenManager s /\ events s' = events s)) /\
     (lastInterestClaimTime p <= now ->
      depositAmount p * INTEREST_RATE <= MAX_UINT256 ->
      depositAmount p * INTEREST_RATE / 100 * (now - lastInterestClaimTime p) <= MAX_UINT256 ->
      getAccruedInterest s now contestId a = Ok accrued /\
      ((0 < accrued ->
          is_Some (mint a accrued (tokenManager s)) /\
          totalInterestGenerated (contest s contestId) + accrued <= MAX_UINT256) ->
       exists s', claimInterest s env contestId = Ok s'))) /\
  (depositAmount (participant funded 1 alice) = 1000 /\
   lastInterestClaimTime (participant funded 1 alice) = 0 /\
   getAccruedInterest funded SECONDS_PER_YEAR 1 alice = Ok 50) /\
  (forall (T : Type) (TM : TokenManager T) (s : State T) (now contestId a : Z),
     depositAmount (participant s contestId a) = 0 ->
     getAccruedInterest s now contestId a = Ok 0).
Proof.
  split; [|split].
  - intros T TM s env contestId a now p accrued Hd. repeat split.
    + intros v Hv. apply getAccruedInterest_Ok in Hv. fold p in Hv.
      destruct Hv as [[Hz _]|(_ & _ & ->)]; [lia | reflexivity].
    + apply _claimInterest_Ok in H. fold a now p accrued in H.
      destruct H as (_ & Ht & _ & [[Hle ->]|(Hpos & t & Hmint & ->)]).
      * pose proof (accrualFormula_nonneg (depositAmount p) (now - lastInterestClaimTime p)).
        fold accrued in H. rewrite contest_set_participant. lia.
      * autorewrite with storage. reflexivity.
    + apply _claimInterest_Ok in H. fold a now p accrued in H.
      destruct H as (_ & _ & _ & [[Hle ->]|(_ & t & Hmint & ->)]); [lia | exact Hmint].
    + apply _claimInterest_Ok in H. fold a now p accrued in H.
      destruct H as (_ & _ & _ & [[Hle ->]|(_ & t & Hmint & ->)]); [lia | reflexivity].
    + apply _claimInterest_Ok in H. fold a now p accrued in H.
      destruct H as (_ & _ & _ & [[Hle ->]|(Hpos & _)]); [reflexivity | lia].
    + apply _claimInterest_Ok in H. fold a now p accrued in H.
      destruct H as (_ & _ & _ & [[Hle ->]|(Hpos & _)]); [reflexivity | lia].
    + apply getAccruedInterest_succeeds; fold p; [lia | assumption..].
    + intros Hmint. apply _claimInterest_succeeds; assumption.
  - split_conj; vm_compute; reflexivity.
  - intros T TM s now contestId a. apply getAccruedInterest_no_deposit.
Qed.

Lemma accrued_interest_formula_witness :
  0 < depositAmount (participant funded 1 alice) /\
  getAccruedInterest funded SECONDS_PER_YEAR 1 alice =
    Ok (accrualFormula 1000 INTEREST_RATE (SECONDS_PER_YEAR - 0)) /\
  exists s', claimInterest funded (mkEnv alice SECONDS_PER_YEAR) 1 = Ok s'.
Proof.
  assert (Hd : 0 < depositAmount (participant funded 1 alice))
    by (vm_compute; reflexivity).
  split; [exact Hd|].
  destruct (proj1 accrued_interest_formula _ _ funded (mkEnv alice SECONDS_PER_YEAR) 1 Hd)
    as (_ & _ & Hrun).
  destruct Hrun as [Hget Hclaim]; [vm_compute; discriminate..|].
  split; [exact Hget|].
  apply Hclaim. intros _. split; [eexists; vm_compute; reflexivity | vm_compute; discriminate].
Defined.

(** Claim C8. When [claimInterest] has succeeded, calling it again at the same
    [block.timestamp] succeeds and returns the storage unchanged: the elapsed
    time is zero because the first call set [lastInterestClaimTime] to [now],
    so the accrued amount is zero, nothing is minted and no event is emitted. *)
Theorem claimInterest_twice_same_time {T : Type} `{!TokenManager T}
    (s s1 : State T) (env : Env) (contestId : Z) :
  claimInterest s env contestId = Ok s1 ->
  let a := msg_sender env in
  let now := block_timestamp env in
  0 < depositAmount (participant s1 contestId a) /\
  lastInterestClaimTime (participant s1 contestId a) = now /\
  accrualFormula (depositAmount (participant s1 contestId a)) INTEREST_RATE
    (now - lastInterestClaimTime (participant s1 contestId a)) = 0 /\
  claimInterest s1 env contestId = Ok s1.
Proof.
  intros H a now. unfold claimInterest in *. fold a in H |- *.
  apply _claimInterest_Ok in H. fold now in H.
  set (p := participant s contestId a) in H.
  destruct H as (Hd & Ht & Hmul & Hs1).
  assert (Hp1 : participant s1 contestId a = with_lastInterestClaimTime p now).
  { destruct Hs1 as [[_ ->]|(_ & t & _ & ->)]; autorewrite with storage; reflexivity. }
  rewrite Hp1. cbn [depositAmount lastInterestClaimTime with_lastInterestClaimTime].
  rewrite Z.sub_diag, accrualFormula_no_time.
  repeat split; [exact Hd|].
  unfold _claimInterest. fold now. rewrite Hp1.
  cbn [depositAmount lastInterestClaimTime with_lastInterestClaimTime].
  replace (0 <? depositAmount p) with true by (symmetry; apply Z.ltb_lt; exact Hd).
  rewrite require_true, (checked_sub_in_range now now), (checked_mul_in_range _ _ Hmul) by lia.
  cbn [mbind result_bind]. rewrite Z.sub_diag.
  rewrite checked_mul_in_range by (rewrite Z.mul_0_r; vm_compute; discriminate).
  cbn [mbind result_bind]. rewrite Z.mul_0_r. change (0 <? 0 / SECONDS_PER_YEAR) with false.
  cbv iota. f_equal.
  change (with_lastInterestClaimTime (with_lastInterestClaimTime p now) now)
    with (with_lastInterestClaimTime p now).
  destruct Hs1 as [[_ ->]|(_ & t & _ & ->)].
  - apply set_participant_again.
  - rewrite set_participant_emit, set_participant_set_contest,
      set_participant_set_tokenManager, set_participant_again. reflexivity.
Qed.

Lemma claimInterest_twice_same_time_witness :
  exists s1, claimInterest funded (mkEnv alice SECONDS_PER_YEAR) 1 = Ok s1 /\
             claimInterest s1 (mkEnv alice SECONDS_PER_YEAR) 1 = Ok s1.
Proof.
  eexists. split; [vm_compute; reflexivity|].
  apply (claimInterest_twice_same_time funded _ (mkEnv alice SECONDS_PER_YEAR) 1).
  vm_compute; reflexivity.
Defined.

(** ** Deposits *)

Section Deposit.
Context {T : Type} `{!TokenManager T}.
Implicit Types (s : State T) (env : Env).

(** A settlement touches neither the principal nor the deposit totals. *)
Lemma _claimInterest_keeps_deposits s env contestId a s1 :
  _claimInterest s env contestId a = Ok s1 ->
  participant s1 contestId a =
    with_lastInterestClaimTime (participant s contestId a) (block_timestamp env) /\
  (forall j b, (contestId, a) <> (j, b) -> participant s1 j b = participant s j b) /\
  (forall j, totalDeposited (contest s1 j) = totalDeposited (contest s j) /\
             participantsCount (contest s1 j) = participantsCount (contest s j) /\
             votingDeadline (contest s1 j) = votingDeadline (contest s j) /\
             active (contest s1 j) = active (contest s j)) /\
  _contestCounter s1 = _contestCounter s /\ owner s1 = owner s.
Proof.
  intros H. apply _claimInterest_Ok in H.
  destruct H as (_ & _ & _ & [[_ ->]|(_ & t & _ & ->)]).
  - split; [apply participant_set_participant_eq|].
    split; [intros j b Hne; apply participant_set_participant_ne; exact Hne|].
    split; [|split; reflexivity]. intros j. rewrite contest_set_participant. auto.
  - split; [autorewrite with storage; reflexivity|].
    split; [intros j b Hne; autorewrite with storage;
            apply participant_set_participant_ne; exact Hne|].
    split; [|split; reflexivity]. intros j.
    rewrite contest_emit, contest_set_contest.
    destruct (decide (contestId = j)) as [->|_]; [|auto]. cbn. auto.
Qed.

(** The storage a successful [deposit] returns: [s1] is the storage after
    the first branch (enrolment, or settlement of the interest outstanding on
    the old principal), on which the principal and the totals are raised. *)
Lemma deposit_Ok s env amount contestId s' :
  deposit s env amount contestId = Ok s' ->
  let a := msg_sender env in
  let now := block_timestamp env in
  let p := participant s contestId a in
  0 < amount /\ active (contest s contestId) = true /\ hasFinished p = false /\
  exists s1,
    ((depositAmount p = 0 /\
      s1 = set_participant
             (set_contest s contestId
                (with_participantsCount (contest s contestId)
                   (participantsCount (contest s contestId) + 1)))
             contestId a (with_lastInterestClaimTime p now)) \/
     (depositAmount p <> 0 /\ _claimInterest s env contestId a = Ok s1)) /\
    let p1 := participant s1 contestId a in
    s' = emit
           (set_contest
              (set_participant
                 (set_participant s1 contestId a
                    (with_depositAmount p1 (depositAmount p1 + amount)))
                 contestId a
                 (with_depositTimestamp
                    (with_depositAmount p1 (depositAmount p1 + amount)) now))
              contestId
              (with_totalDeposited (contest s1 contestId)
                 (totalDeposited (contest s1 contestId) + amount)))
           (ParticipantJoined contestId a amount).
Proof.
  intros H a now p. unfold deposit in H. fold a now p in H. invert_Ok H.
  apply Z.ltb_lt in Hreq. apply negb_true_iff in Hreq1.
  repeat (split; [assumption|]). exists x. split.
  - destruct (Z.eqb_spec (depositAmount p) 0) as [Hz|Hnz].
    + left. split; [exact Hz|]. invert_Ok Hx. injection Hx as <-. reflexivity.
    + right. split; [exact Hnz | exact Hx].
  - cbv zeta. rewrite participant_set_participant_eq in H. invert_Ok H.
    injection H as <-. reflexivity.
Qed.

End Deposit.

(** Claim C6. A successful [deposit] of [amount]: on a first deposit
    [participantsCount] goes up by one and [lastInterestClaimTime] becomes
    [now], with nothing minted; on a later deposit [_claimInterest] is run
    first on the storage as the call found it, hence on the old principal,
    and the deposit continues from the storage [s1] it returns; in both
    cases [amount] is added to the caller's [depositAmount] and to the
    contest's [totalDeposited], and [depositTimestamp] becomes [now]. *)
Theorem deposit_effects {T : Type} `{!TokenManager T}
    (s s' : State T) (env : Env) (amount contestId : Z) :
  deposit s env amount contestId = Ok s' ->
  let a := msg_sender env in
  let now := block_timestamp env in
  let p := participant s contestId a in
  (depositAmount p = 0 ->
     participantsCount (contest s' contestId) = participantsCount (contest s contestId) + 1 /\
     lastInterestClaimTime (participant s' contestId a) = now /\
     tokenManager s' = tokenManager s /\
     totalInterestGenerated (contest s' contestId) =
       totalInterestGenerated (contest s contestId) /\
     events s' = ParticipantJoined contestId a amount :: events s) /\
  (depositAmount p <> 0 ->
     exists s1,
       _claimInterest s env contestId a = Ok s1 /\
       depositAmount (participant s1 contestId a) = depositAmount p /\
       participantsCount (contest s' contestId) = participantsCount (contest s contestId) /\
       lastInterestClaimTime (participant s' contestId a) = now /\
       tokenManager s' = tokenManager s1 /\
       totalInterestGenerated (contest s' contestId) =
         totalInterestGenerated (contest s1 contestId) /\
       events s' = ParticipantJoined contestId a amount :: events s1) /\
  depositAmount (participant s' contestId a) = depositAmount p + amount /\
  totalDeposited (contest s' contestId) = totalDeposited (contest s contestId) + amount /\
  depositTimestamp (participant s' contestId a) = now.
Proof.
  intros H a now p. apply deposit_Ok in H. fold a now p in H.
  destruct H as (_ & _ & _ & s1 & Hs1 & ->). autorewrite with storage.
  cbn [depositAmount depositTimestamp lastInterestClaimTime with_depositAmount
       with_depositTimestamp totalDeposited participantsCount totalInterestGenerated
       with_totalDeposited].
  destruct Hs1 as [[Hz ->]|[Hnz Hs1]].
  - autorewrite with storage. cbn. repeat split; try reflexivity; try contradiction.
  - destruct (_claimInterest_keeps_deposits _ _ _ _ _ Hs1) as (Hp1 & _ & Hc & _).
    destruct (Hc contestId) as (Htot & Hcnt & _).
    rewrite Hp1, Htot, Hcnt. cbn. repeat split; try reflexivity; try contradiction.
    intros _. exists s1. rewrite Hp1. repeat split; try reflexivity. exact Hs1.
Qed.

Lemma deposit_effects_witness :
  exists s', deposit funded (mkEnv alice SECONDS_PER_YEAR) 200 1 = Ok s' /\
             depositAmount (participant s' 1 alice) =
               depositAmount (participant funded 1 alice) + 200 /\
             totalDeposited (contest s' 1) = totalDeposited (contest funded 1) + 200.
Proof.
  destruct (deposit funded (mkEnv alice SECONDS_PER_YEAR) 200 1) as [s'|f] eqn:Hdep.
  - exists s'. split; [reflexivity|].
    destruct (deposit_effects _ _ _ _ _ Hdep) as (_ & _ & Hp & Ht & _).
    split; [exact Hp | exact Ht].
  - vm_compute in Hdep. discriminate.
Defined.

(** ** The sum of the deposits of a contest *)

Lemma sumDeposits_empty : sumDeposits ∅ = 0.
Proof. unfold sumDeposits. apply map_fold_empty. Qed.

Lemma sumDeposits_insert_fresh (m : gmap Z Participant) (a : Z) (p : Participant) :
  m !! a = None -> sumDeposits (<[a := p]> m) = depositAmount p + sumDeposits m.
Proof.
  intros Hm. unfold sumDeposits.
  rewrite map_fold_insert_L; [reflexivity | intros; lia | exact Hm].
Qed.

Lemma sumDeposits_insert (m : gmap Z Participant) (a : Z) (p : Participant) :
  sumDeposits (<[a := p]> m) =
  sumDeposits m - depositAmount (default zeroParticipant (m !! a)) + depositAmount p.
Proof.
  destruct (m !! a) as [q|] eqn:Hm; cbn.
  - assert (Hq : sumDeposits m = depositAmount q + sumDeposits (delete a m)).
    { unfold sumDeposits.
      rewrite (map_fold_delete_L (fun _ r acc => depositAmount r + acc) 0 a q m);
        [reflexivity | intros; lia | exact Hm]. }
    rewrite <- insert_delete_eq, sumDeposits_insert_fresh by apply lookup_delete_eq.
    lia.
  - rewrite sumDeposits_insert_fresh by exact Hm. lia.
Qed.

Lemma sumDeposits_zero (m : gmap Z Participant) :
  (forall a p, m !! a = Some p -> depositAmount p = 0) -> sumDeposits m = 0.
Proof.
  induction m as [|a p m Hm IH] using map_ind; intros Hall.
  - apply sumDeposits_empty.
  - rewrite sumDeposits_insert_fresh by exact Hm.
    rewrite (Hall a p) by apply lookup_insert_eq.
    rewrite IH; [reflexivity|]. intros b q Hb. apply (Hall b q).
    rewrite lookup_insert_ne; [exact Hb|]. intros ->. congruence.
Qed.

Section Sums.
Context {T : Type} `{!TokenManager T}.
Implicit Types (s : State T) (env : Env).

Lemma sumDeposits_set_participant s i a p j :
  sumDeposits (participantsOf (set_participant s i a p) j) =
  if decide (i = j)
  then sumDeposits (participantsOf s i) - depositAmount (participant s i a) + depositAmount p
  else sumDeposits (participantsOf s j).
Proof.
  rewrite participantsOf_set_participant. destruct (decide (i = j)); [|reflexivity].
  apply sumDeposits_insert.
Qed.

Lemma sumDeposits_set_participant_same s i a p j :
  depositAmount p = depositAmount (participant s i a) ->
  sumDeposits (participantsOf (set_participant s i a p) j) = sumDeposits (participantsOf s j).
Proof.
  intros Hp. rewrite sumDeposits_set_participant.
  destruct (decide (i = j)) as [->|_]; [lia | reflexivity].
Qed.

Lemma sumDeposits_no_deposits s j :
  (forall b, depositAmount (participant s j b) = 0) -> sumDeposits (participantsOf s j) = 0.
Proof.
  intros Hall. apply sumDeposits_zero. intros b p Hb.
  specialize (Hall b). unfold participant in Hall. rewrite Hb in Hall. exact Hall.
Qed.

End Sums.

(** ** What each call does to the deposits *)

Section Frames.
Context {T : Type} `{!TokenManager T}.
Implicit Types (s : State T) (env : Env).

Lemma same_deposits_refl s : same_deposits s s.
Proof. constructor; auto. Qed.

Lemma same_deposits_trans s1 s2 s3 :
  same_deposits s1 s2 -> same_deposits s2 s3 -> same_deposits s1 s3.
Proof.
  intros [c1 d1 v1 t1 l1 a1 m1] [c2 d2 v2 t2 l2 a2 m2].
  constructor; intros; first [congruence | auto].
Qed.

Lemma same_deposits_set_participant s i a p :
  depositAmount p = depositAmount (participant s i a) ->
  (hasVoted (participant s i a) = true -> hasVoted p = true) ->
  same_deposits s (set_participant s i a p).
Proof.
  intros Hd Hv. constructor; try reflexivity.
  - intros j b. rewrite participant_set_participant.
    destruct (decide (i = j /\ a = b)) as [[-> ->]|_]; [exact Hd | reflexivity].
  - intros j b. rewrite participant_set_participant.
    destruct (decide (i = j /\ a = b)) as [[-> ->]|_]; [exact Hv | auto].
  - intros j. apply sumDeposits_set_participant_same. exact Hd.
Qed.

Lemma same_deposits_set_contest s i c :
  totalDeposited c = totalDeposited (contest s i) ->
  votingDeadline c = votingDeadline (contest s i) ->
  active c = active (contest s i) ->
  same_deposits s (set_contest s i c).
Proof.
  intros Ht Hdl Ha. constructor; try reflexivity; auto.
  all: intros j; rewrite contest_set_contest;
    destruct (decide (i = j)) as [->|_]; auto.
Qed.

Lemma same_deposits_emit s e : same_deposits s (emit s e).
Proof. constructor; auto. Qed.

Lemma same_deposits_set_tokenManager s (t : T) : same_deposits s (set_tokenManager s t).
Proof. constructor; auto. Qed.

Lemma same_deposits_set_owner s o : same_deposits s (set_owner s o).
Proof. constructor; auto. Qed.

Lemma same_deposits_credited s s1 s' i a amount :
  same_deposits s s1 -> credited s1 s' i a amount -> credited s s' i a amount.
Proof.
  intros [c1 d1 v1 t1 l1 a1 m1] [c2 d2 v2 t2 l2 a2 m2].
  constructor; intros.
  - congruence.
  - rewrite d2, d1. reflexivity.
  - auto.
  - rewrite t2, t1. reflexivity.
  - congruence.
  - congruence.
  - rewrite m2, m1. reflexivity.
Qed.

(** A settlement leaves every deposit as it is. *)
Lemma _claimInterest_same_deposits s env contestId a s1 :
  _claimInterest s env contestId a = Ok s1 -> same_deposits s s1.
Proof.
  intros H. apply _claimInterest_Ok in H.
  assert (Hp : same_deposits s (set_participant s contestId a
             (with_lastInterestClaimTime (participant s contestId a) (block_timestamp env))))
    by (apply same_deposits_set_participant; auto).
  destruct H as (_ & _ & _ & [[_ ->]|(_ & t & _ & ->)]); [exact Hp|].
  eapply same_deposits_trans; [|apply same_deposits_emit].
  eapply same_deposits_trans; [|apply same_deposits_set_contest; reflexivity].
  eapply same_deposits_trans; [|apply same_deposits_set_tokenManager].
  exact Hp.
Qed.

(** The storage a successful [vote] returns. *)
Lemma vote_Ok s env contestId nominee s' :
  vote s env contestId nominee = Ok s' ->
  let a := msg_sender env in
  let voter := participant s contestId a in
  let s1 := set_participant s contestId a (with_hasVoted voter true) in
  block_timestamp env <= votingDeadline (contest s contestId) /\
  active (contest s contestId) = true /\
  0 < depositAmount voter /\ hasVoted voter = false /\
  0 < depositAmount (participant s contestId nominee) /\
  s' = emit (set_participant s1 contestId nominee
               (with_votesReceived (participant s1 contestId nominee)
                  (votesReceived (participant s1 contestId nominee) + 1)))
            (Voted contestId a nominee).
Proof.
  intros H a voter s1. unfold vote in H. invert_Ok H. cbv zeta in H.
  fold a voter in H, Hreq1, Hreq2. fold s1 in H. invert_Ok H.
  apply Z.leb_le in Hreq. apply Z.ltb_lt in Hreq1, Hreq3.
  apply negb_true_iff in Hreq2. injection H as <-. auto 10.
Qed.

Lemma vote_same_deposits s env contestId nominee s' :
  vote s env contestId nominee = Ok s' -> same_deposits s s'.
Proof.
  intros H. apply vote_Ok in H. destruct H as (_ & _ & _ & _ & _ & ->).
  eapply same_deposits_trans; [|apply same_deposits_emit].
  eapply same_deposits_trans; [apply same_deposits_set_participant|
                               apply same_deposits_set_participant]; auto.
Qed.

(** The storage a successful [createContest] returns. *)
Lemma createContest_Ok s env t d g dur s' contestId :
  createContest s env t d g dur = Ok (s', contestId) ->
  owner s = msg_sender env /\
  contestId = (_contestCounter s + 1) mod 2 ^ 256 /\
  s' = emit (set_contest (increment s) contestId
               (mkContestDetails t d g 0 0 0 (block_timestamp env + dur) true))
            (ContestCreated contestId t (block_timestamp env + dur)).
Proof.
  intros H. unfold createContest in H. invert_Ok H. cbv zeta in H.
  rewrite contest_set_contest_eq in H. cbn [votingDeadline] in H.
  unfold onlyOwner in Hx. destruct (Z.eqb_spec (owner s) (msg_sender env)); [|discriminate].
  injection H as <- <-. auto.
Qed.

(** The deposit proper: raising the principal of [a] and the total of the
    contest by [amount]. *)
Lemma credit_credited s i a amount now e :
  let p := participant s i a in
  credited s
    (emit
       (set_contest
          (set_participant
             (set_participant s i a (with_depositAmount p (depositAmount p + amount)))
             i a
             (with_depositTimestamp (with_depositAmount p (depositAmount p + amount)) now))
          i (with_totalDeposited (contest s i) (totalDeposited (contest s i) + amount)))
       e)
    i a amount.
Proof.
  intros p. constructor; try reflexivity.
  - intros j b. rewrite participant_emit, participant_set_contest.
    rewrite !participant_set_participant.
    destruct (decide (i = j /\ a = b)) as [[-> ->]|Hn].
    + destruct (decide ((j, b) = (j, b))); [reflexivity | congruence].
    + destruct (decide ((i, a) = (j, b))) as [[= -> ->]|_]; [tauto | lia].
  - intros j b. rewrite participant_emit, participant_set_contest.
    rewrite !participant_set_participant.
    destruct (decide (i = j /\ a = b)) as [[-> ->]|Hn]; auto.
  - intros j. rewrite contest_emit, contest_set_contest.
    destruct (decide (i = j)) as [->|_]; [reflexivity|].
    rewrite !contest_set_participant. lia.
  - intros j. rewrite contest_emit, contest_set_contest.
    destruct (decide (i = j)) as [->|_]; reflexivity.
  - intros j. rewrite contest_emit, contest_set_contest.
    destruct (decide (i = j)) as [->|_]; reflexivity.
  - intros j. rewrite participantsOf_emit, participantsOf_set_contest.
    rewrite sumDeposits_set_participant.
    destruct (decide (i = j)) as [->|Hij].
    + rewrite participant_set_participant_eq, sumDeposits_set_participant.
      destruct (decide (j = j)); [|congruence]. cbn. fold p. lia.
    + rewrite sumDeposits_set_participant.
      destruct (decide (i = j)); [congruence | lia].
Qed.

Lemma deposit_credited s env amount contestId s' :
  deposit s env amount contestId = Ok s' ->
  0 < amount /\ active (contest s contestId) = true /\
  credited s s' contestId (msg_sender env) amount.
Proof.
  intros H. apply deposit_Ok in H.
  destruct H as (Hpos & Hact & _ & s1 & Hs1 & ->).
  split; [exact Hpos|]. split; [exact Hact|].
  eapply same_deposits_credited; [|apply credit_credited].
  destruct Hs1 as [[_ ->]|[_ Hs1]].
  - eapply same_deposits_trans;
      [apply same_deposits_set_contest | apply same_deposits_set_participant];
      auto.
  - eapply _claimInterest_same_deposits. exact Hs1.
Qed.

End Frames.

(** ** Calls on a contest that is not active *)

Section Inactive.
Context {T : Type} `{!TokenManager T}.
Implicit Types (s : State T) (env : Env).


Lemma deposit_inactive s env amount contestId :
  active (contest s contestId) = false ->
  deposit s env amount contestId =
  Revert (if 0 <? amount then ContestInactive else InvalidAmount).
Proof.
  intros Hact. unfold deposit. destruct (0 <? amount); [|reflexivity].
  rewrite Hact. reflexivity.
Qed.


Lemma vote_expired s env contestId nominee :
  votingDeadline (contest s contestId) < block_timestamp env ->
  vote s env contestId nominee = Revert VotingClosed.
Proof.
  intros Hlt. unfold vote.
  replace (_ <=? _) with false by (symmetry; apply Z.leb_gt; exact Hlt).
  reflexivity.
Qed.


(** A contest that was never written reads as the zero record. *)
Lemma contest_missing s contestId :
  contests s !! contestId = None -> contest s contestId = zeroContest.
Proof. unfold contest. intros ->. reflexivity. Qed.

End Inactive.

(** Claim C10, the counterexample. On the freshly deployed ledger contest 1
    was never created; a deposit of zero into it reverts with
    [InvalidAmount], not with [ContestInactive]. *)
Lemma deposit_zero_into_missing_contest :
  contests deployed !! 1 = None /\
  failure deployed (mkEnv alice 1, Deposit 1 0) = Some InvalidAmount /\
  InvalidAmount <> ContestInactive.
Proof.
  split_conj; try (vm_compute; reflexivity). discriminate.
Qed.

(** Claim C10, as amended. For a contest identifier that [createContest]
    never wrote, the record reads as all zero; a [deposit] of a positive
    amount reverts with [ContestInactive] (a deposit of zero with
    [InvalidAmount], the amount being checked first), and a [vote] at any
    time after zero reverts with [VotingClosed]. These are the failures the
    same calls meet on any contest that is inactive, respectively expired:
    there is no failure of its own for a missing contest. *)
Theorem missing_contest_calls {T : Type} `{!TokenManager T}
    (s : State T) (env : Env) (contestId : Z) :
  contests s !! contestId = None ->
  active (contest s contestId) = false /\
  votingDeadline (contest s contestId) = 0 /\
  (forall amount, 0 < amount -> deposit s env amount contestId = Revert ContestInactive) /\
  (forall amount, amount <= 0 -> deposit s env amount contestId = Revert InvalidAmount) /\
  (forall nominee, 0 < block_timestamp env ->
     vote s env contestId nominee = Revert VotingClosed) /\
  (forall (s2 : State T) amount,
     active (contest s2 contestId) = false ->
     deposit s2 env amount contestId = deposit s env amount contestId) /\
  (forall (s2 : State T) nominee,
     0 < block_timestamp env ->
     votingDeadline (contest s2 contestId) < block_timestamp env ->
     vote s2 env contestId nominee = vote s env contestId nominee).
Proof.
  intros Hnone. apply contest_missing in Hnone.
  assert (Hact : active (contest s contestId) = false) by (rewrite Hnone; reflexivity).
  assert (Hdl : votingDeadline (contest s contestId) = 0) by (rewrite Hnone; reflexivity).
  split_conj; try assumption.
  - intros amount Hpos. rewrite deposit_inactive by exact Hact.
    replace (0 <? amount) with true by (symmetry; apply Z.ltb_lt; exact Hpos).
    reflexivity.
  - intros amount Hle. rewrite deposit_inactive by exact Hact.
    replace (0 <? amount) with false by (symmetry; apply Z.ltb_ge; exact Hle).
    reflexivity.
  - intros nominee Hnow. apply vote_expired. rewrite Hdl. exact Hnow.
  - intros s2 amount Hact2. rewrite !deposit_inactive by assumption. reflexivity.
  - intros s2 nominee Hnow Hexp. rewrite !vote_expired; [reflexivity | lia | exact Hexp].
Qed.

Lemma missing_contest_calls_witness :
  deposit deployed (mkEnv alice 1) 5 1 = Revert ContestInactive /\
  vote deployed (mkEnv alice 1) 1 bob = Revert VotingClosed.
Proof.
  assert (Hnone : contests deployed !! 1 = None) by (vm_compute; reflexivity).
  destruct (missing_contest_calls deployed (mkEnv alice 1) 1 Hnone)
    as (_ & _ & Hdep & _ & Hvote & _).
  split; [apply Hdep; lia | apply Hvote; cbn; lia].
Defined.

(** ** What any call preserves *)

Section Calls.
Context {T : Type} `{!TokenManager T}.
Implicit Types (s : State T) (env : Env).

(** A successful call is a contest creation, a deposit, or leaves every
    deposit as it is. *)
Lemma call_effect s env c s' :
  call s env c = Ok s' ->
  same_deposits s s' \/
  (exists i amount,
     0 < amount /\ active (contest s i) = true /\
     credited s s' i (msg_sender env) amount) \/
  (exists i c0 e,
     i = (_contestCounter s + 1) mod 2 ^ 256 /\
     totalDeposited c0 = 0 /\ active c0 = true /\
     s' = emit (set_contest (increment s) i c0) e).
Proof.
  destruct c as [t d g dur|i amount|i|i nominee|i|o|]; cbn [call]; intros H.
  - right; right.
    destruct (createContest s env t d g dur) as [[s0 i]|f] eqn:Hc; [|discriminate].
    injection H as ->. apply createContest_Ok in Hc. destruct Hc as (_ & Hi & Hs).
    eexists i, _, _. split; [exact Hi|]. split; [|split; [|exact Hs]]; reflexivity.
  - right; left. apply deposit_credited in H. destruct H as (? & ? & ?). eauto 10.
  - left. eapply _claimInterest_same_deposits. exact H.
  - left. eapply vote_same_deposits. exact H.
  - destruct (endContest_never_succeeds s env i) as [f Hf]. congruence.
  - left. unfold transferOwnership in H. invert_Ok H.
    destruct (o =? 0); [discriminate|]. injection H as <-.
    eapply same_deposits_trans; [apply same_deposits_set_owner | apply same_deposits_emit].
  - left. unfold renounceOwnership in H. invert_Ok H. injection H as <-.
    eapply same_deposits_trans; [apply same_deposits_set_owner | apply same_deposits_emit].
Qed.

(** Votes cast stay cast and deposits do not shrink, whatever is called. *)
Lemma call_keeps_voters s env c s' j b :
  call s env c = Ok s' ->
  (hasVoted (participant s j b) = true -> hasVoted (participant s' j b) = true) /\
  depositAmount (participant s j b) <= depositAmount (participant s' j b).
Proof.
  intros H. apply call_effect in H.
  destruct H as [Hsd|[(i & amount & Hpos & _ & Hcr)|(i & c0 & e & _ & _ & _ & ->)]].
  - split; [apply (sd_voted _ _ Hsd) | rewrite (sd_deposit _ _ Hsd); lia].
  - split; [apply (cr_voted _ _ _ _ _ Hcr)|]. rewrite (cr_deposit _ _ _ _ _ Hcr).
    destruct (decide _); lia.
  - split; [auto|]. rewrite participant_emit, participant_set_contest.
    change (participant (increment s) j b) with (participant s j b). lia.
Qed.

Lemma transact_keeps_voters s tx j b :
  (hasVoted (participant s j b) = true ->
   hasVoted (participant (transact s tx) j b) = true) /\
  depositAmount (participant s j b) <= depositAmount (participant (transact s tx) j b).
Proof.
  unfold transact. destruct (call s (fst tx) (snd tx)) as [s'|f] eqn:Hc.
  - eapply call_keeps_voters. exact Hc.
  - split; [auto | lia].
Qed.

Lemma run_keeps_voters txs s j b :
  hasVoted (participant s j b) = true -> 0 < depositAmount (participant s j b) ->
  hasVoted (participant (run s txs) j b) = true /\
  0 < depositAmount (participant (run s txs) j b).
Proof.
  revert s. induction txs as [|tx txs IH]; intros s Hv Hd; [auto|].
  cbn [run foldl]. destruct (transact_keeps_voters s tx j b) as [Hv' Hd'].
  apply IH; [auto | lia].
Qed.

(** *** States reachable from deployment *)

Lemma reachable_invariant n s :
  reachable n s -> Z.of_nat n < 2 ^ 256 ->
  0 <= _contestCounter s <= Z.of_nat n /\ unused_untouched s /\ balanced s /\
  (forall contestId, created s contestId -> active (contest s contestId) = true).
Proof.
  induction 1 as [deployer token|n s env c s' Hreach IH Hcall]; intros Hn.
  - split; [cbn; lia|]. split; [|split].
    + intros i _. split; [reflexivity|]. intros a. reflexivity.
    + intros i. reflexivity.
    + intros i Hi. unfold created in Hi. cbn in Hi. lia.
  - destruct IH as (Hcount & Hunused & Hbal & Hlive); [lia|].
    apply call_effect in Hcall.
    destruct Hcall
      as [Hsd|[(i & amount & Hpos & Hact & Hcr)|(i & c0 & e & Hi & Hc0 & Hc1 & ->)]].
    + destruct Hsd as [Hc Hd Hv Ht Hl Ha Hm]. split; [lia|]. split; [|split].
      * intros j Hj. unfold created in Hj. rewrite Hc in Hj.
        destruct (Hunused j Hj) as [Hact Hdep]. rewrite Ha. split; [exact Hact|].
        intros a. rewrite Hd. apply Hdep.
      * intros j. rewrite Ht, Hm. apply Hbal.
      * intros j Hj. unfold created in Hj. rewrite Hc in Hj. rewrite Ha. apply Hlive, Hj.
    + destruct Hcr as [Hc Hd Hv Ht Hl Ha Hm]. split; [lia|]. split; [|split].
      * intros j Hj. unfold created in Hj. rewrite Hc in Hj.
        destruct (Hunused j Hj) as [Hactj Hdep]. rewrite Ha. split; [exact Hactj|].
        intros a. rewrite Hd, Hdep.
        destruct (decide _) as [[= Hij _]|_]; [congruence | lia].
      * intros j. rewrite Ht, Hm, (Hbal j). reflexivity.
      * intros j Hj. unfold created in Hj. rewrite Hc in Hj. rewrite Ha. apply Hlive, Hj.
    + rewrite Z.mod_small in Hi by lia. subst i. cbn [_contestCounter emit set_contest increment].
      rewrite Z.mod_small by lia. split; [lia|]. split; [|split].
      * intros j Hj. unfold created in Hj. cbn [_contestCounter emit set_contest increment] in Hj.
        rewrite Z.mod_small in Hj by lia.
        rewrite contest_emit, contest_set_contest_ne by lia.
        apply Hunused. unfold created. lia.
      * intros j. rewrite contest_emit, contest_set_contest.
        change (participantsOf (emit _ _) j) with (participantsOf s j).
        destruct (decide (_contestCounter s + 1 = j)) as [<-|_]; [|apply Hbal].
        rewrite Hc0. symmetry. apply sumDeposits_no_deposits.
        apply Hunused. unfold created. lia.
      * intros j Hj. unfold created in Hj. cbn [_contestCounter emit set_contest increment] in Hj.
        rewrite Z.mod_small in Hj by lia.
        rewrite contest_emit, contest_set_contest.
        destruct (decide (_contestCounter s + 1 = j)) as [_|Hne]; [exact Hc1|].
        apply Hlive. unfold created. lia.
Qed.

(** On a reachable storage a contest that is not active was never created,
    so nobody holds a deposit in it and [claimInterest] has nothing to
    settle: no call of [endContest] ever goes through to deactivate a funded
    contest. *)
Lemma reachable_inactive_contest_unfunded n s env contestId :
  reachable n s -> Z.of_nat n < 2 ^ 256 ->
  active (contest s contestId) = false ->
  (forall a, depositAmount (participant s contestId a) = 0) /\
  claimInterest s env contestId = Revert NoDeposit.
Proof.
  intros Hr Hn Hact.
  destruct (reachable_invariant n s Hr Hn) as (_ & Hunused & _ & Hlive).
  assert (Hnot : ~ created s contestId).
  { intros Hc. apply Hlive in Hc. congruence. }
  destruct (Hunused contestId Hnot) as [_ Hdep].
  split; [exact Hdep|]. unfold claimInterest, _claimInterest. rewrite Hdep. reflexivity.
Qed.


(** The storage after a run of transactions is reachable in at most as many
    calls as the run has transactions. *)
Lemma reachable_run txs n s :
  reachable n s ->
  exists m, (m <= n + length txs)%nat /\ reachable m (run s txs).
Proof.
  revert n s. induction txs as [|tx txs IH]; intros n s Hr.
  - exists n. split; [cbn; lia | exact Hr].
  - cbn [run foldl length]. unfold transact at 2.
    destruct (call s (fst tx) (snd tx)) as [s'|f] eqn:Hc.
    + destruct (IH (S n) s' (reachable_call _ _ _ _ _ Hr Hc)) as (m & Hm & Hrm).
      exists m. split; [lia | exact Hrm].
    + destruct (IH n s Hr) as (m & Hm & Hrm). exists m. split; [lia | exact Hrm].
Qed.

End Calls.



Section Totals.
Context {T : Type} `{!TokenManager T}.
Implicit Types (s : State T) (env : Env).

(** One successful call on a reachable storage does not lower the total of
    an active contest, and leaves the contest active. *)
Lemma call_total_monotone n s env c s' contestId :
  reachable n s -> Z.of_nat n < 2 ^ 256 - 1 ->
  call s env c = Ok s' -> active (contest s contestId) = true ->
  totalDeposited (contest s contestId) <= totalDeposited (contest s' contestId) /\
  active (contest s' contestId) = true.
Proof.
  intros Hr Hn Hcall Hact.
  destruct (reachable_invariant n s Hr) as (Hcount & Hunused & _); [lia|].
  apply call_effect in Hcall.
  destruct Hcall as [Hsd|[(i & amount & Hpos & _ & Hcr)|(i & c0 & e & Hi & _ & _ & ->)]].
  - rewrite (sd_total _ _ Hsd), (sd_active _ _ Hsd). split; [lia | exact Hact].
  - rewrite (cr_total _ _ _ _ _ Hcr), (cr_active _ _ _ _ _ Hcr).
    split; [destruct (decide _); lia | exact Hact].
  - rewrite Z.mod_small in Hi by lia.
    assert (Hne : i <> contestId).
    { intros ->. destruct (Hunused (_contestCounter s + 1)) as [Hf _];
        [unfold created; lia | congruence]. }
    rewrite contest_emit, contest_set_contest_ne by exact Hne.
    change (contest (increment s) contestId) with (contest s contestId).
    split; [lia | exact Hact].
Qed.

Lemma run_total_monotone txs n s contestId :
  reachable n s -> Z.of_nat n + Z.of_nat (length txs) < 2 ^ 256 ->
  active (contest s contestId) = true ->
  totalDeposited (contest s contestId) <= totalDeposited (contest (run s txs) contestId).
Proof.
  revert n s. induction txs as [|tx txs IH]; intros n s Hr Hn Hact; [cbn; lia|].
  cbn [run foldl]. cbn [length] in Hn. unfold transact at 2.
  destruct (call s (fst tx) (snd tx)) as [s'|f] eqn:Hc.
  - destruct (call_total_monotone n s _ _ s' contestId Hr ltac:(lia) Hc Hact) as [Hle Hact'].
    etransitivity; [exact Hle|].
    apply (IH (S n) s'); [eapply reachable_call; eassumption | lia | exact Hact'].
  - apply (IH n s); [exact Hr | lia | exact Hact].
Qed.

End Totals.

(** Claim C5. In every storage reached from deployment by [n] successful
    calls, [n] below [2^256] (the contest counter is incremented unchecked,
    so identifiers could only repeat after [2^256] creations), each contest's
    [totalDeposited] is the sum of the [depositAmount] of its participants;
    and over any further transactions, as long as the count of calls stays
    below [2^256], the [totalDeposited] of a contest that is active does not
    decrease. *)
Theorem totalDeposited_is_sum_of_deposits {T : Type} `{!TokenManager T}
    (n : nat) (s : State T) :
  reachable n s -> Z.of_nat n < 2 ^ 256 ->
  (forall contestId,
     totalDeposited (contest s contestId) = sumDeposits (participantsOf s contestId)) /\
  (forall txs contestId,
     Z.of_nat n + Z.of_nat (length txs) < 2 ^ 256 ->
     active (contest s contestId) = true ->
     totalDeposited (contest s contestId) <=
     totalDeposited (contest (run s txs) contestId)).
Proof.
  intros Hr Hn. split.
  - apply (reachable_invariant n s Hr Hn).
  - intros txs contestId Hlen Hact. eapply run_total_monotone; eassumption.
Qed.

Lemma totalDeposited_is_sum_of_deposits_witness :
  totalDeposited (contest funded 1) = sumDeposits (participantsOf funded 1) /\
  totalDeposited (contest funded 1) <= totalDeposited (contest (run funded voting) 1).
Proof.
  destruct (reachable_run funding O deployed (reachable_deployed deployer []))
    as (m & Hm & Hr).
  cbn [length funding Nat.add] in Hm. fold funded in Hr.
  assert (Hlt : Z.of_nat m < 2 ^ 256)
    by (apply Z.le_lt_trans with 3; [lia | reflexivity]).
  destruct (totalDeposited_is_sum_of_deposits m funded Hr Hlt) as [Hsum Hmono].
  split; [apply Hsum|]. apply Hmono.
  - apply Z.le_lt_trans with (3 + 2); [cbn [length voting]; lia | reflexivity].
  - vm_compute. reflexivity.
Defined.

(** Claim C9, the counterexample. On [voted] the vote [alice] cast at time
    20 was accepted; her next vote, sent after the deadline of 3600, fails
    with [VotingClosed], not with [AlreadyVoted]. *)
Lemma second_vote_after_deadline :
  failure funded (mkEnv alice 20, Vote 1 bob) = None /\
  hasVoted (participant voted 1 alice) = true /\
  votingDeadline (contest voted 1) = 3600 /\
  failure voted (mkEnv alice 3601, Vote 1 alice) = Some VotingClosed /\
  VotingClosed <> AlreadyVoted.
Proof.
  split_conj; try (vm_compute; reflexivity). discriminate.
Qed.

(** Claim C9, as amended. Once a participant's [vote] in a contest has
    succeeded, every later [vote] of that participant in that contest fails,
    whatever transactions came in between and whoever is nominated: with
    [AlreadyVoted] if the call is made up to the deadline on an active
    contest, and otherwise with the failure of the guard checked before it,
    [VotingClosed] after the deadline or [ContestInactive]. *)
Theorem second_vote_fails {T : Type} `{!TokenManager T}
    (s s1 : State T) (env : Env) (contestId nominee : Z) :
  vote s env contestId nominee = Ok s1 ->
  forall (txs : list (Env * Call)) (env' : Env) (nominee' : Z),
    msg_sender env' = msg_sender env ->
    let s2 := run s1 txs in
    hasVoted (participant s2 contestId (msg_sender env)) = true /\
    vote s2 env' contestId nominee' =
      Revert (if votingDeadline (contest s2 contestId) <? block_timestamp env'
              then VotingClosed
              else if active (contest s2 contestId) then AlreadyVoted
              else ContestInactive).
Proof.
  intros Hvote txs env' nominee' Hsender s2.
  apply vote_Ok in Hvote. destruct Hvote as (_ & _ & Hdep & _ & _ & ->).
  set (a := msg_sender env) in *.
  set (s1 := emit _ _) in s2.
  assert (Hv1 : hasVoted (participant s1 contestId a) = true /\
                0 < depositAmount (participant s1 contestId a)).
  { unfold s1. rewrite participant_emit, participant_set_participant.
    destruct (decide (contestId = contestId /\ nominee = a)) as [[_ ->]|_].
    - rewrite participant_set_participant_eq. cbn. auto.
    - rewrite participant_set_participant_eq. cbn. auto. }
  destruct (run_keeps_voters txs s1 contestId a (proj1 Hv1) (proj2 Hv1)) as [Hv2 Hd2].
  fold s2 in Hv2, Hd2. split; [exact Hv2|].
  unfold vote. cbv zeta. rewrite Hsender. fold a.
  rewrite (Z.ltb_antisym (block_timestamp env') (votingDeadline (contest s2 contestId))).
  destruct (block_timestamp env' <=? votingDeadline (contest s2 contestId));
    [|reflexivity].
  destruct (active (contest s2 contestId)); [|reflexivity].
  rewrite Hv2. apply Z.ltb_lt in Hd2. rewrite Hd2. reflexivity.
Qed.

Lemma second_vote_fails_witness :
  vote voted (mkEnv alice 40) 1 alice = Revert AlreadyVoted /\
  vote voted (mkEnv alice 3601) 1 alice = Revert VotingClosed.
Proof.
  destruct (vote funded (mkEnv alice 20) 1 bob) as [s1|f] eqn:Hvote;
    [|vm_compute in Hvote; discriminate].
  assert (Hs1 : voted = run s1 [(mkEnv bob 30, Vote 1 bob)]).
  { unfold voted, voting, run at 1. cbn [foldl]. unfold transact at 2.
    cbn [fst snd call]. rewrite Hvote. reflexivity. }
  split.
  - destruct (second_vote_fails funded s1 (mkEnv alice 20) 1 bob Hvote
                [(mkEnv bob 30, Vote 1 bob)] (mkEnv alice 40) alice eq_refl) as [_ H].
    rewrite <- Hs1 in H. rewrite H. vm_compute. reflexivity.
  - destruct (second_vote_fails funded s1 (mkEnv alice 20) 1 bob Hvote
                [(mkEnv bob 30, Vote 1 bob)] (mkEnv alice 3601) alice eq_refl) as [_ H].
    rewrite <- Hs1 in H. rewrite H. vm_compute. reflexivity.
Defined.

(** * Further properties of the contract *)

(** ** Winner resolution and the lifecycle of a contest *)

(** Property X1. Whatever [getWinner] returns is the zero address, and its
    outcome is decided by the deadline and the [active] flag of the contest
    alone: two storages that agree on these give the same outcome, whatever
    their participants and votes. *)
Theorem getWinner_ignores_votes {T : Type} `{!TokenManager T}
    (s s2 : State T) (now contestId : Z) :
  votingDeadline (contest s2 contestId) = votingDeadline (contest s contestId) ->
  active (contest s2 contestId) = active (contest s contestId) ->
  getWinner s2 now contestId = getWinner s now contestId /\
  (forall winner, getWinner s now contestId = Ok winner -> winner = 0).
Proof.
  intros Hdl Hact. split.
  - rewrite !getWinner_outcome, Hdl, Hact. reflexivity.
  - intros winner. rewrite getWinner_outcome.
    destruct (_ <=? _); [discriminate|].
    destruct (active (contest s contestId)); [|discriminate]. congruence.
Qed.

Lemma getWinner_ignores_votes_witness :
  getWinner voted 3601 1 = getWinner funded 3601 1.
Proof.
  apply (getWinner_ignores_votes funded voted 3601 1); vm_compute; reflexivity.
Defined.

(** Property X2. [endContest] reverts for every storage, caller, time and
    contest, so a transaction calling it leaves the storage as it was. *)
Theorem endContest_always_reverts {T : Type} `{!TokenManager T}
    (s : State T) (env : Env) (contestId : Z) :
  (exists f, endContest s env contestId = Revert f) /\
  transact s (env, EndContest contestId) = s.
Proof.
  destruct (endContest_never_succeeds s env contestId) as [f Hf].
  split; [eauto|]. unfold transact; cbn [fst snd call]. rewrite Hf. reflexivity.
Qed.

Section Lifecycle.
Context {T : Type} `{!TokenManager T}.
Implicit Types (s : State T) (env : Env).

Lemma call_keeps_active s env c s' contestId :
  call s env c = Ok s' -> active (contest s contestId) = true ->
  active (contest s' contestId) = true.
Proof.
  intros Hcall Hact. apply call_effect in Hcall.
  destruct Hcall as [Hsd|[(i & amount & _ & _ & Hcr)|(i & c0 & e & _ & _ & Hc0 & ->)]].
  - rewrite (sd_active _ _ Hsd). exact Hact.
  - rewrite (cr_active _ _ _ _ _ Hcr). exact Hact.
  - rewrite contest_emit, contest_set_contest.
    destruct (decide (i = contestId)); [exact Hc0 | exact Hact].
Qed.

Lemma transact_keeps_active s tx contestId :
  active (contest s contestId) = true ->
  active (contest (transact s tx) contestId) = true.
Proof.
  intros Hact. unfold transact.
  destruct (call s (fst tx) (snd tx)) as [s'|f] eqn:Hc; [|exact Hact].
  eapply call_keeps_active; eassumption.
Qed.

(** On a reachable storage a successful call leaves the deadline of an
    active contest where it was. *)
Lemma call_keeps_deadline n s env c s' contestId :
  reachable n s -> Z.of_nat n < 2 ^ 256 - 1 ->
  call s env c = Ok s' -> active (contest s contestId) = true ->
  votingDeadline (contest s' contestId) = votingDeadline (contest s contestId).
Proof.
  intros Hr Hn Hcall Hact.
  destruct (reachable_invariant n s Hr) as (Hcount & Hunused & _); [lia|].
  apply call_effect in Hcall.
  destruct Hcall as [Hsd|[(i & amount & _ & _ & Hcr)|(i & c0 & e & Hi & _ & _ & ->)]].
  - apply (sd_deadline _ _ Hsd).
  - apply (cr_deadline _ _ _ _ _ Hcr).
  - rewrite Z.mod_small in Hi by lia.
    assert (Hne : i <> contestId).
    { intros ->. destruct (Hunused (_contestCounter s + 1)) as [Hf _];
        [unfold created; lia | congruence]. }
    rewrite contest_emit, contest_set_contest_ne by exact Hne. reflexivity.
Qed.

End Lifecycle.

(** Property X3. A contest that is active stays active over every run of
    transactions, from any storage: nothing in the contract clears the
    flag. *)
Theorem active_is_never_cleared {T : Type} `{!TokenManager T}
    (s : State T) (txs : list (Env * Call)) (contestId : Z) :
  active (contest s contestId) = true ->
  active (contest (run s txs) contestId) = true.
Proof.
  revert s. induction txs as [|tx txs IH]; intros s Hact; [exact Hact|].
  cbn [run foldl]. apply IH. apply transact_keeps_active. exact Hact.
Qed.

Lemma active_is_never_cleared_witness :
  active (contest (run funded ((mkEnv deployer 4000, EndContest 1) :: voting)) 1) = true.
Proof.
  apply (active_is_never_cleared funded). vm_compute. reflexivity.
Defined.

(** Property X4. On a storage reached from deployment, the voting deadline
    of an active contest is the same after any run of transactions (the
    count of calls staying below [2^256]): a deadline is never extended,
    shortened or reset. *)
Theorem votingDeadline_is_fixed {T : Type} `{!TokenManager T}
    (txs : list (Env * Call)) (n : nat) (s : State T) (contestId : Z) :
  reachable n s -> Z.of_nat n + Z.of_nat (length txs) < 2 ^ 256 ->
  active (contest s contestId) = true ->
  votingDeadline (contest (run s txs) contestId) = votingDeadline (contest s contestId).
Proof.
  revert n s. induction txs as [|tx txs IH]; intros n s Hr Hn Hact; [reflexivity|].
  cbn [run foldl]. cbn [length] in Hn. unfold transact at 2.
  destruct (call s (fst tx) (snd tx)) as [s'|f] eqn:Hc.
  - etransitivity;
      [apply (IH (S n) s');
         [eapply reachable_call; eassumption | lia
         | eapply call_keeps_active; eassumption]|].
    eapply call_keeps_deadline; [exact Hr | lia | exact Hc | exact Hact].
  - apply (IH n s); [exact Hr | lia | exact Hact].
Qed.

Lemma votingDeadline_is_fixed_witness :
  votingDeadline (contest (run funded voting) 1) = votingDeadline (contest funded 1).
Proof.
  destruct (reachable_run funding O deployed (reachable_deployed deployer []))
    as (m & Hm & Hr).
  cbn [length funding Nat.add] in Hm. fold funded in Hr.
  apply (votingDeadline_is_fixed voting m funded 1 Hr).
  - apply Z.le_lt_trans with (3 + 2); [cbn [length voting]; lia | reflexivity].
  - vm_compute. reflexivity.
Defined.

(** Property X5. Over every run of transactions, from any storage, no
    participant's [depositAmount] decreases and no [hasVoted] flag is
    cleared: there is no withdrawal and no way to vote again. *)
Theorem deposits_and_votes_are_kept {T : Type} `{!TokenManager T}
    (s : State T) (txs : list (Env * Call)) (contestId a : Z) :
  depositAmount (participant s contestId a) <=
    depositAmount (participant (run s txs) contestId a) /\
  (hasVoted (participant s contestId a) = true ->
   hasVoted (participant (run s txs) contestId a) = true).
Proof.
  revert s. induction txs as [|tx txs IH]; intros s.
  - change (run s []) with s. split; [lia | auto].
  - change (run s (tx :: txs)) with (run (transact s tx) txs).
    destruct (transact_keeps_voters s tx contestId a) as [Hv Hd].
    destruct (IH (transact s tx)) as [Hd' Hv']. split; [lia | auto].
Qed.

Lemma deposits_and_votes_are_kept_witness :
  hasVoted (participant (run voted funding) 1 alice) = true.
Proof.
  apply (deposits_and_votes_are_kept voted funding 1 alice). vm_compute. reflexivity.
Defined.

(** ** Creating a contest *)

Lemma checked_add_out_of_range (a b : Z) :
  MAX_UINT256 < a + b -> checked_add a b = Revert (Panic 17).
Proof.
  intros Hlt. unfold checked_add.
  destruct (Z.leb_spec (a + b) MAX_UINT256); [lia | reflexivity].
Qed.

Lemma checked_sub_out_of_range (a b : Z) : a < b -> checked_sub a b = Revert (Panic 17).
Proof.
  intros Hlt. unfold checked_sub. destruct (Z.leb_spec b a); [lia | reflexivity].
Qed.

Lemma checked_mul_out_of_range (a b : Z) :
  MAX_UINT256 < a * b -> checked_mul a b = Revert (Panic 17).
Proof.
  intros Hlt. unfold checked_mul.
  destruct (Z.leb_spec (a * b) MAX_UINT256); [lia | reflexivity].
Qed.

Section Creation.
Context {T : Type} `{!TokenManager T}.
Implicit Types (s : State T) (env : Env).

Lemma createContest_by_owner s env t d g dur :
  owner s = msg_sender env ->
  block_timestamp env + dur <= MAX_UINT256 ->
  let contestId := (_contestCounter s + 1) mod 2 ^ 256 in
  createContest s env t d g dur =
  Ok (emit (set_contest (increment s) contestId
              (mkContestDetails t d g 0 0 0 (block_timestamp env + dur) true))
           (ContestCreated contestId t (block_timestamp env + dur)),
      contestId).
Proof.
  intros Hown Hrange contestId. unfold createContest, onlyOwner.
  rewrite Hown, Z.eqb_refl. cbn [mbind result_bind].
  rewrite (checked_add_in_range _ _ Hrange). cbn [mbind result_bind].
  rewrite contest_set_contest_eq. reflexivity.
Qed.

Lemma createContest_by_stranger s env t d g dur :
  owner s <> msg_sender env ->
  createContest s env t d g dur = Revert (OwnableUnauthorizedAccount (msg_sender env)).
Proof.
  intros Hown. unfold createContest, onlyOwner.
  destruct (Z.eqb_spec (owner s) (msg_sender env)); [contradiction | reflexivity].
Qed.

Lemma createContest_deadline_overflow s env t d g dur :
  owner s = msg_sender env ->
  MAX_UINT256 < block_timestamp env + dur ->
  createContest s env t d g dur = Revert (Panic 17).
Proof.
  intros Hown Hrange. unfold createContest, onlyOwner.
  rewrite Hown, Z.eqb_refl. cbn [mbind result_bind].
  rewrite (checked_add_out_of_range _ _ Hrange). reflexivity.
Qed.

End Creation.

(** Property X6. [createContest] goes through exactly when the caller is the
    owner and [block.timestamp + _votingDuration] fits in [uint256]; anyone
    else is turned away by [onlyOwner], and the owner with a duration that
    overflows the deadline gets the arithmetic panic. *)
Theorem createContest_succeeds_iff {T : Type} `{!TokenManager T}
    (s : State T) (env : Env) (t d g : string) (dur : Z) :
  ((exists r, createContest s env t d g dur = Ok r) <->
   owner s = msg_sender env /\ block_timestamp env + dur <= MAX_UINT256) /\
  (owner s <> msg_sender env ->
   createContest s env t d g dur = Revert (OwnableUnauthorizedAccount (msg_sender env))) /\
  (owner s = msg_sender env -> MAX_UINT256 < block_timestamp env + dur ->
   createContest s env t d g dur = Revert (Panic 17)).
Proof.
  split; [|split].
  - split.
    + intros [r Hr].
      destruct (decide (owner s = msg_sender env)) as [Hown|Hown].
      * split; [exact Hown|].
        destruct (Z.le_gt_cases (block_timestamp env + dur) MAX_UINT256) as [Hle|Hgt];
          [exact Hle|].
        rewrite createContest_deadline_overflow in Hr by assumption. discriminate.
      * rewrite createContest_by_stranger in Hr by assumption. discriminate.
    + intros [Hown Hrange]. rewrite createContest_by_owner by assumption. eauto.
  - apply createContest_by_stranger.
  - apply createContest_deadline_overflow.
Qed.

Lemma createContest_succeeds_iff_witness :
  createContest voted (mkEnv alice 50) "Second" "" "" 10 =
    Revert (OwnableUnauthorizedAccount alice) /\
  createContest voted (mkEnv deployer 50) "Second" "" "" MAX_UINT256 = Revert (Panic 17) /\
  exists r, createContest voted (mkEnv deployer 50) "Second" "" "" 10 = Ok r.
Proof.
  destruct (createContest_succeeds_iff voted (mkEnv alice 50) "Second" "" "" 10)
    as (_ & Hstranger & _).
  destruct (createContest_succeeds_iff voted (mkEnv deployer 50) "Second" "" "" MAX_UINT256)
    as (_ & _ & Hover).
  destruct (createContest_succeeds_iff voted (mkEnv deployer 50) "Second" "" "" 10)
    as (Hiff & _).
  split; [apply Hstranger; vm_compute; discriminate|].
  split; [apply Hover; vm_compute; reflexivity|].
  apply Hiff. split; vm_compute; [reflexivity | discriminate].
Defined.

(** Property X7. On a storage reached from deployment by fewer than
    [2^256 - 1] calls, [createContest] by the owner returns the identifier
    [_contestCounter + 1], which no contest had before; the new contest is
    active, with the given texts, the deadline [now + _votingDuration], zero
    totals and no depositor; every other contest and every participant record
    is left as it was, and [ContestCreated] is logged. *)
Theorem createContest_allocates_fresh_contest {T : Type} `{!TokenManager T}
    (n : nat) (s : State T) (env : Env) (t d g : string) (dur : Z) :
  reachable n s -> Z.of_nat n < 2 ^ 256 - 1 ->
  owner s = msg_sender env ->
  block_timestamp env + dur <= MAX_UINT256 ->
  let contestId := _contestCounter s + 1 in
  exists s',
    createContest s env t d g dur = Ok (s', contestId) /\
    ~ created s contestId /\ created s' contestId /\
    contest s' contestId =
      mkContestDetails t d g 0 0 0 (block_timestamp env + dur) true /\
    (forall a, depositAmount (participant s' contestId a) = 0) /\
    (forall j, j <> contestId -> contest s' j = contest s j) /\
    (forall j b, participant s' j b = participant s j b) /\
    events s' = ContestCreated contestId t (block_timestamp env + dur) :: events s.
Proof.
  intros Hr Hn Hown Hrange contestId.
  destruct (reachable_invariant n s Hr) as (Hcount & Hunused & _); [lia|].
  assert (Hid : (_contestCounter s + 1) mod 2 ^ 256 = contestId)
    by (apply Z.mod_small; lia).
  eexists. split.
  { rewrite createContest_by_owner by assumption. cbv zeta. rewrite Hid. reflexivity. }
  assert (Hfresh : ~ created s contestId) by (unfold created, contestId; lia).
  split_conj.
  - exact Hfresh.
  - unfold created. cbn [_contestCounter emit set_contest increment]. rewrite Hid.
    unfold contestId. lia.
  - rewrite contest_emit, contest_set_contest_eq. reflexivity.
  - intros a. rewrite participant_emit, participant_set_contest.
    apply (Hunused contestId Hfresh).
  - intros j Hj. rewrite contest_emit, contest_set_contest_ne by congruence. reflexivity.
  - reflexivity.
  - reflexivity.
Qed.

Lemma createContest_allocates_fresh_contest_witness :
  exists s', createContest funded (mkEnv deployer 50) "Second" "" "" 10 = Ok (s', 2) /\
             contest s' 1 = contest funded 1.
Proof.
  destruct (reachable_run funding O deployed (reachable_deployed deployer []))
    as (m & Hm & Hr).
  cbn [length funding Nat.add] in Hm. fold funded in Hr.
  assert (Hlt : Z.of_nat m < 2 ^ 256 - 1)
    by (apply Z.le_lt_trans with 3; [lia | reflexivity]).
  destruct (createContest_allocates_fresh_contest m funded (mkEnv deployer 50)
              "Second" "" "" 10 Hr Hlt)
    as (s' & Hc & _ & _ & _ & _ & Hother & _).
  - vm_compute. reflexivity.
  - vm_compute. discriminate.
  - exists s'. split; [exact Hc|]. apply Hother. discriminate.
Defined.

(** ** Voting *)

Section Voting.
Context {T : Type} `{!TokenManager T}.
Implicit Types (s : State T) (env : Env).

Lemma vote_accepted s env contestId nominee :
  block_timestamp env <= votingDeadline (contest s contestId) ->
  active (contest s contestId) = true ->
  0 < depositAmount (participant s contestId (msg_sender env)) ->
  hasVoted (participant s contestId (msg_sender env)) = false ->
  0 < depositAmount (participant s contestId nominee) ->
  votesReceived (participant s contestId nominee) + 1 <= MAX_UINT256 ->
  exists s', vote s env contestId nominee = Ok s'.
Proof.
  intros Hdl Hact Hd Hv Hn Hrange. unfold vote. cbv zeta.
  apply Z.leb_le in Hdl. apply Z.ltb_lt in Hd, Hn.
  rewrite Hdl, Hact, Hd, Hv, Hn. cbn [negb require mbind result_bind].
  rewrite checked_add_in_range; [cbn [mbind result_bind]; eauto|].
  rewrite participant_set_participant.
  destruct (decide (contestId = contestId /\ msg_sender env = nominee)) as [[_ <-]|_];
    exact Hrange.
Qed.

End Voting.

(** Property X8. [vote] goes through exactly when the call is made up to the
    deadline, the contest is active, the caller holds a deposit and has not
    voted, the nominee holds a deposit, and the nominee's vote count has room
    for one more. *)
Theorem vote_succeeds_iff {T : Type} `{!TokenManager T}
    (s : State T) (env : Env) (contestId nominee : Z) :
  (exists s', vote s env contestId nominee = Ok s') <->
  block_timestamp env <= votingDeadline (contest s contestId) /\
  active (contest s contestId) = true /\
  0 < depositAmount (participant s contestId (msg_sender env)) /\
  hasVoted (participant s contestId (msg_sender env)) = false /\
  0 < depositAmount (participant s contestId nominee) /\
  votesReceived (participant s contestId nominee) + 1 <= MAX_UINT256.
Proof.
  split.
  - intros [s' Hv]. unfold vote in Hv. cbv zeta in Hv. invert_Ok Hv.
    apply Z.leb_le in Hreq. apply Z.ltb_lt in Hreq1, Hreq3.
    apply negb_true_iff in Hreq2. split_conj; try assumption.
    rewrite participant_set_participant in Hadd.
    destruct (decide (contestId = contestId /\ msg_sender env = nominee)) as [[_ <-]|_];
      exact Hadd.
  - intros (Hdl & Hact & Hd & Hv & Hn & Hrange). apply vote_accepted; assumption.
Qed.

Lemma vote_succeeds_iff_witness :
  exists s', vote funded (mkEnv alice 20) 1 alice = Ok s'.
Proof.
  apply (vote_succeeds_iff funded (mkEnv alice 20) 1 alice).
  split_conj; vm_compute; try reflexivity; discriminate.
Defined.

(** Property X9. A successful [vote] sets the caller's [hasVoted], adds one
    to the nominee's [votesReceived] (also when the caller nominates
    themselves), changes no deposit, no other field of the two records, no
    other participant and no contest, mints nothing and logs [Voted]. *)
Theorem vote_effects {T : Type} `{!TokenManager T}
    (s s' : State T) (env : Env) (contestId nominee : Z) :
  vote s env contestId nominee = Ok s' ->
  let a := msg_sender env in
  participant s' contestId a =
    (if decide (a = nominee)
     then with_votesReceived (with_hasVoted (participant s contestId a) true)
            (votesReceived (participant s contestId a) + 1)
     else with_hasVoted (participant s contestId a) true) /\
  participant s' contestId nominee =
    (if decide (a = nominee)
     then with_votesReceived (with_hasVoted (participant s contestId a) true)
            (votesReceived (participant s contestId a) + 1)
     else with_votesReceived (participant s contestId nominee)
            (votesReceived (participant s contestId nominee) + 1)) /\
  (forall j b, (j, b) <> (contestId, a) -> (j, b) <> (contestId, nominee) ->
     participant s' j b = participant s j b) /\
  (forall j, contest s' j = contest s j) /\
  tokenManager s' = tokenManager s /\
  events s' = Voted contestId a nominee :: events s.
Proof.
  intros Hv a. apply vote_Ok in Hv. fold a in Hv.
  destruct Hv as (_ & _ & _ & _ & _ & ->). split_conj; try reflexivity.
  - rewrite participant_emit, !participant_set_participant.
    destruct (decide (a = nominee)) as [<-|Hne].
    + destruct (decide (contestId = contestId /\ a = a)); [reflexivity | tauto].
    + destruct (decide (contestId = contestId /\ nominee = a)) as [[_ Heq]|_];
        [congruence|].
      destruct (decide (contestId = contestId /\ a = a)); [reflexivity | tauto].
  - rewrite participant_emit, participant_set_participant_eq, participant_set_participant.
    destruct (decide (a = nominee)) as [<-|Hne].
    + destruct (decide (contestId = contestId /\ a = a)); [reflexivity | tauto].
    + destruct (decide (contestId = contestId /\ a = nominee)) as [[_ Heq]|_];
        [congruence | reflexivity].
  - intros j b Ha Hn. rewrite participant_emit.
    rewrite !participant_set_participant_ne by congruence. reflexivity.
Qed.

Lemma vote_effects_witness :
  exists s', vote funded (mkEnv alice 20) 1 alice = Ok s' /\
             hasVoted (participant s' 1 alice) = true /\
             votesReceived (participant s' 1 alice) = 1.
Proof.
  destruct (vote funded (mkEnv alice 20) 1 alice) as [s'|f] eqn:Hvote;
    [|vm_compute in Hvote; discriminate].
  exists s'. split; [reflexivity|].
  destruct (vote_effects funded s' (mkEnv alice 20) 1 alice Hvote) as (Hp & _).
  cbn [msg_sender] in Hp. rewrite Hp. split; vm_compute; reflexivity.
Defined.

(** ** What a settlement and a deposit leave alone *)

Section Footprint.
Context {T : Type} `{!TokenManager T}.
Implicit Types (s : State T) (env : Env).

Lemma with_totalInterestGenerated_same (c : ContestDetails) :
  with_totalInterestGenerated c (totalInterestGenerated c) = c.
Proof. destruct c. reflexivity. Qed.

Lemma _claimInterest_footprint s env contestId a s1 :
  _claimInterest s env contestId a = Ok s1 ->
  participant s1 contestId a =
    with_lastInterestClaimTime (participant s contestId a) (block_timestamp env) /\
  (forall j b, (j, b) <> (contestId, a) -> participant s1 j b = participant s j b) /\
  contest s1 contestId =
    with_totalInterestGenerated (contest s contestId)
      (totalInterestGenerated (contest s1 contestId)) /\
  (forall j, j <> contestId -> contest s1 j = contest s j) /\
  _contestCounter s1 = _contestCounter s /\ owner s1 = owner s.
Proof.
  intros H. apply _claimInterest_Ok in H.
  destruct H as (_ & _ & _ & [[_ ->]|(_ & t & _ & ->)]).
  - split_conj; try reflexivity.
    + apply participant_set_participant_eq.
    + intros j b Hne. apply participant_set_participant_ne. congruence.
    + rewrite contest_set_participant. symmetry. apply with_totalInterestGenerated_same.
  - split_conj; try reflexivity.
    + autorewrite with storage. reflexivity.
    + intros j b Hne. autorewrite with storage.
      apply participant_set_participant_ne. congruence.
    + rewrite contest_emit, contest_set_contest_eq. reflexivity.
    + intros j Hne. rewrite contest_emit, contest_set_contest_ne by congruence.
      reflexivity.
Qed.

(** The storage [s1] on which [deposit] raises the principal: the storage
    after enrolment or after the settlement. *)
Lemma deposit_first_stage s env amount contestId s' :
  deposit s env amount contestId = Ok s' ->
  let a := msg_sender env in
  exists s1,
    participant s1 contestId a =
      with_lastInterestClaimTime (participant s contestId a) (block_timestamp env) /\
    (forall j b, (j, b) <> (contestId, a) -> participant s1 j b = participant s j b) /\
    (exists count total,
       contest s1 contestId =
       with_totalInterestGenerated
         (with_participantsCount (contest s contestId) count) total) /\
    (forall j, j <> contestId -> contest s1 j = contest s j) /\
    _contestCounter s1 = _contestCounter s /\ owner s1 = owner s /\
    s' = emit
           (set_contest
              (set_participant
                 (set_participant s1 contestId a
                    (with_depositAmount (participant s1 contestId a)
                       (depositAmount (participant s1 contestId a) + amount)))
                 contestId a
                 (with_depositTimestamp
                    (with_depositAmount (participant s1 contestId a)
                       (depositAmount (participant s1 contestId a) + amount))
                    (block_timestamp env)))
              contestId
              (with_totalDeposited (contest s1 contestId)
                 (totalDeposited (contest s1 contestId) + amount)))
           (ParticipantJoined contestId a amount).
Proof.
  intros H a. apply deposit_Ok in H. fold a in H.
  destruct H as (_ & _ & _ & s1 & Hs1 & Hs'). exists s1.
  destruct Hs1 as [[_ ->]|[_ Hs1]].
  - split_conj; try reflexivity.
    + apply participant_set_participant_eq.
    + intros j b Hne. rewrite participant_set_participant_ne by congruence.
      reflexivity.
    + eexists _, _. rewrite contest_set_participant, contest_set_contest_eq.
      symmetry. apply with_totalInterestGenerated_same.
    + intros j Hne. rewrite contest_set_participant, contest_set_contest_ne by congruence.
      reflexivity.
    + exact Hs'.
  - destruct (_claimInterest_footprint _ _ _ _ _ Hs1) as (Hp & Ho & Hc & Hoc & Hn & Hw).
    split_conj; try assumption.
    exists (participantsCount (contest s contestId)),
           (totalInterestGenerated (contest s1 contestId)).
    rewrite Hc. destruct (contest s contestId). reflexivity.
Qed.

Lemma deposit_others s env amount contestId s' :
  deposit s env amount contestId = Ok s' ->
  (forall j b, (j, b) <> (contestId, msg_sender env) ->
     participant s' j b = participant s j b) /\
  (forall j, j <> contestId -> contest s' j = contest s j).
Proof.
  intros H. apply deposit_first_stage in H.
  destruct H as (s1 & _ & Ho & _ & Hoc & _ & _ & ->). split.
  - intros j b Hne. rewrite participant_emit, participant_set_contest.
    rewrite !participant_set_participant_ne by congruence. apply Ho. exact Hne.
  - intros j Hne. rewrite contest_emit, contest_set_contest_ne by congruence.
    rewrite !contest_set_participant. apply Hoc. exact Hne.
Qed.

End Footprint.

(** Property X10. A successful [claimInterest] changes, in the ledger's
    storage, only the caller's [lastInterestClaimTime] (which becomes [now])
    and the contest's [totalInterestGenerated]: every other field of the
    caller's record, every other participant, every other contest, the
    contest counter and the owner are as before. *)
Theorem claimInterest_footprint {T : Type} `{!TokenManager T}
    (s s' : State T) (env : Env) (contestId : Z) :
  claimInterest s env contestId = Ok s' ->
  let a := msg_sender env in
  participant s' contestId a =
    with_lastInterestClaimTime (participant s contestId a) (block_timestamp env) /\
  (forall j b, (j, b) <> (contestId, a) -> participant s' j b = participant s j b) /\
  contest s' contestId =
    with_totalInterestGenerated (contest s contestId)
      (totalInterestGenerated (contest s' contestId)) /\
  (forall j, j <> contestId -> contest s' j = contest s j) /\
  _contestCounter s' = _contestCounter s /\ owner s' = owner s.
Proof. intros H a. apply _claimInterest_footprint. exact H. Qed.

Lemma claimInterest_footprint_witness :
  exists s', claimInterest funded (mkEnv alice SECONDS_PER_YEAR) 1 = Ok s' /\
             participant s' 1 bob = participant funded 1 bob.
Proof.
  destruct (claimInterest funded (mkEnv alice SECONDS_PER_YEAR) 1) as [s'|f] eqn:Hc;
    [|vm_compute in Hc; discriminate].
  exists s'. split; [reflexivity|].
  destruct (claimInterest_footprint funded s' _ 1 Hc) as (_ & Hother & _).
  apply Hother. vm_compute. discriminate.
Defined.

(** Property X11. A successful [deposit] touches only the caller's record in
    the contest and the record of the contest: every other participant and
    every other contest are as before; in the caller's record the votes
    received and the two flags are as before; in the contest the texts, the
    deadline and the [active] flag are as before; the contest counter and the
    owner do not change. *)
Theorem deposit_footprint {T : Type} `{!TokenManager T}
    (s s' : State T) (env : Env) (amount contestId : Z) :
  deposit s env amount contestId = Ok s' ->
  let a := msg_sender env in
  (forall j b, (j, b) <> (contestId, a) -> participant s' j b = participant s j b) /\
  (forall j, j <> contestId -> contest s' j = contest s j) /\
  votesReceived (participant s' contestId a) = votesReceived (participant s contestId a) /\
  hasVoted (participant s' contestId a) = hasVoted (participant s contestId a) /\
  hasFinished (participant s' contestId a) = false /\
  title (contest s' contestId) = title (contest s contestId) /\
  description (contest s' contestId) = description (contest s contestId) /\
  goals (contest s' contestId) = goals (contest s contestId) /\
  votingDeadline (contest s' contestId) = votingDeadline (contest s contestId) /\
  active (contest s' contestId) = true /\
  _contestCounter s' = _contestCounter s /\ owner s' = owner s.
Proof.
  intros H a. pose proof (deposit_Ok _ _ _ _ _ H) as (_ & Hact & Hfin & _).
  destruct (deposit_others _ _ _ _ _ H) as [Hop Hoc'].
  apply deposit_first_stage in H. fold a in H, Hfin, Hop.
  destruct H as (s1 & Hp & _ & (count & total & Hc) & _ & Hn & Hw & Hs').
  split; [exact Hop|]. split; [exact Hoc'|]. subst s'.
  split_conj; try assumption; autorewrite with storage;
    rewrite ?Hp, ?Hc; try reflexivity; assumption.
Qed.

Lemma deposit_footprint_witness :
  exists s', deposit voted (mkEnv alice 50) 200 1 = Ok s' /\
             participant s' 1 bob = participant voted 1 bob /\
             hasVoted (participant s' 1 alice) = hasVoted (participant voted 1 alice).
Proof.
  destruct (deposit voted (mkEnv alice 50) 200 1) as [s'|f] eqn:Hd;
    [|vm_compute in Hd; discriminate].
  exists s'. split; [reflexivity|].
  destruct (deposit_footprint voted s' _ 200 1 Hd) as (Hother & _ & _ & Hv & _).
  split; [apply Hother; vm_compute; discriminate | exact Hv].
Defined.

(** ** When a deposit and a settlement are turned away *)

Section Rejections.
Context {T : Type} `{!TokenManager T}.
Implicit Types (s : State T) (env : Env).

Lemma deposit_finished s env amount contestId :
  0 < amount -> active (contest s contestId) = true ->
  hasFinished (participant s contestId (msg_sender env)) = true ->
  deposit s env amount contestId = Revert AlreadyFinished.
Proof.
  intros Hpos Hact Hfin. unfold deposit. apply Z.ltb_lt in Hpos.
  rewrite Hpos, Hact, Hfin. reflexivity.
Qed.

Lemma first_deposit_accepted s env amount contestId :
  depositAmount (participant s contestId (msg_sender env)) = 0 ->
  0 < amount -> active (contest s contestId) = true ->
  hasFinished (participant s contestId (msg_sender env)) = false ->
  participantsCount (contest s contestId) + 1 <= MAX_UINT256 ->
  amount <= MAX_UINT256 ->
  totalDeposited (contest s contestId) + amount <= MAX_UINT256 ->
  exists s', deposit s env amount contestId = Ok s'.
Proof.
  intros Hz Hpos Hact Hfin Hcount Hamount Htotal. unfold deposit.
  apply Z.ltb_lt in Hpos. rewrite Hpos, Hact, Hfin, Hz.
  cbn [negb require mbind result_bind Z.eqb].
  rewrite (checked_add_in_range _ _ Hcount). cbn [mbind result_bind].
  autorewrite with storage.
  cbn [depositAmount with_lastInterestClaimTime]. rewrite Hz.
  rewrite checked_add_in_range by (rewrite Z.add_0_l; exact Hamount).
  cbn [mbind result_bind]. autorewrite with storage.
  cbn [totalDeposited with_participantsCount].
  rewrite (checked_add_in_range _ _ Htotal). cbn [mbind result_bind]. eauto.
Qed.

Lemma first_deposit_Ok s env amount contestId s' :
  depositAmount (participant s contestId (msg_sender env)) = 0 ->
  deposit s env amount contestId = Ok s' ->
  participantsCount (contest s contestId) + 1 <= MAX_UINT256 /\
  amount <= MAX_UINT256 /\
  totalDeposited (contest s contestId) + amount <= MAX_UINT256.
Proof.
  intros Hz H. unfold deposit in H. invert_Ok H. rewrite Hz in Hx.
  cbn [Z.eqb] in Hx. invert_Ok Hx. injection Hx as <-. invert_Ok H.
  autorewrite with storage in *.
  cbn [depositAmount with_lastInterestClaimTime totalDeposited
       with_participantsCount] in *.
  set (d := depositAmount (participant s contestId (msg_sender env))) in *.
  split_conj; lia.
Qed.

(** Outside the range of the checked operations a settlement panics. *)
Lemma _claimInterest_out_of_range s env contestId a :
  let p := participant s contestId a in
  let now := block_timestamp env in
  0 < depositAmount p ->
  now < lastInterestClaimTime p \/
  MAX_UINT256 < depositAmount p * INTEREST_RATE \/
  MAX_UINT256 < depositAmount p * INTEREST_RATE / 100 * (now - lastInterestClaimTime p) ->
  _claimInterest s env contestId a = Revert (Panic 17).
Proof.
  intros p now Hd Hout. unfold _claimInterest. fold p now.
  apply Z.ltb_lt in Hd. rewrite Hd. cbn [require mbind result_bind].
  destruct (Z.lt_ge_cases now (lastInterestClaimTime p)) as [Hback|Hfwd].
  { rewrite (checked_sub_out_of_range _ _ Hback). reflexivity. }
  rewrite (checked_sub_in_range _ _ Hfwd). cbn [mbind result_bind].
  destruct (Z.lt_ge_cases MAX_UINT256 (depositAmount p * INTEREST_RATE)) as [Hbig|Hfit].
  { rewrite (checked_mul_out_of_range _ _ Hbig). reflexivity. }
  rewrite (checked_mul_in_range _ _ Hfit). cbn [mbind result_bind].
  rewrite checked_mul_out_of_range; [reflexivity|]. lia.
Qed.

Lemma getAccruedInterest_out_of_range s now contestId a :
  let p := participant s contestId a in
  0 < depositAmount p ->
  now < lastInterestClaimTime p \/
  MAX_UINT256 < depositAmount p * INTEREST_RATE \/
  MAX_UINT256 < depositAmount p * INTEREST_RATE / 100 * (now - lastInterestClaimTime p) ->
  getAccruedInterest s now contestId a = Revert (Panic 17).
Proof.
  intros p Hd Hout. unfold getAccruedInterest. cbv zeta. fold p.
  destruct (Z.eqb_spec (depositAmount p) 0) as [Hz|_]; [lia|].
  destruct (Z.lt_ge_cases now (lastInterestClaimTime p)) as [Hback|Hfwd].
  { rewrite (checked_sub_out_of_range _ _ Hback). reflexivity. }
  rewrite (checked_sub_in_range _ _ Hfwd). cbn [mbind result_bind].
  destruct (Z.lt_ge_cases MAX_UINT256 (depositAmount p * INTEREST_RATE)) as [Hbig|Hfit].
  { rewrite (checked_mul_out_of_range _ _ Hbig). reflexivity. }
  rewrite (checked_mul_in_range _ _ Hfit). cbn [mbind result_bind].
  rewrite checked_mul_out_of_range; [reflexivity|]. lia.
Qed.

(** What [getAccruedInterest] has checked when it returns for a depositor. *)
Lemma getAccruedInterest_Ok_range s now contestId a v :
  getAccruedInterest s now contestId a = Ok v ->
  let p := participant s contestId a in
  depositAmount p <> 0 ->
  lastInterestClaimTime p <= now /\
  depositAmount p * INTEREST_RATE <= MAX_UINT256 /\
  depositAmount p * INTEREST_RATE / 100 * (now - lastInterestClaimTime p) <= MAX_UINT256 /\
  v = accrualFormula (depositAmount p) INTEREST_RATE (now - lastInterestClaimTime p).
Proof.
  intros H p Hnz. unfold getAccruedInterest in H. cbv zeta in H. fold p in H.
  destruct (Z.eqb_spec (depositAmount p) 0) as [Hz|_]; [contradiction|].
  invert_Ok H. injection H as <-. auto.
Qed.

End Rejections.

(** Property X12. The guards of [deposit], in the order they are checked: a
    non-positive amount is rejected with [InvalidAmount]; then an inactive
    contest with [ContestInactive]; then a caller marked finished with
    [AlreadyFinished]. A first deposit that passes the guards goes through
    exactly when [participantsCount + 1], the amount and
    [totalDeposited + amount] fit in [uint256]. *)
Theorem deposit_guards {T : Type} `{!TokenManager T}
    (s : State T) (env : Env) (amount contestId : Z) :
  let p := participant s contestId (msg_sender env) in
  (amount <= 0 -> deposit s env amount contestId = Revert InvalidAmount) /\
  (0 < amount -> active (contest s contestId) = false ->
   deposit s env amount contestId = Revert ContestInactive) /\
  (0 < amount -> active (contest s contestId) = true -> hasFinished p = true ->
   deposit s env amount contestId = Revert AlreadyFinished) /\
  (depositAmount p = 0 ->
   ((exists s', deposit s env amount contestId = Ok s') <->
    0 < amount /\ active (contest s contestId) = true /\ hasFinished p = false /\
    participantsCount (contest s contestId) + 1 <= MAX_UINT256 /\
    amount <= MAX_UINT256 /\
    totalDeposited (contest s contestId) + amount <= MAX_UINT256)).
Proof.
  intros p. split_conj.
  - intros Hle. unfold deposit.
    replace (0 <? amount) with false by (symmetry; apply Z.ltb_ge; exact Hle).
    reflexivity.
  - intros Hpos Hact. rewrite deposit_inactive by exact Hact.
    apply Z.ltb_lt in Hpos. rewrite Hpos. reflexivity.
  - apply deposit_finished.
  - intros Hz. split.
    + intros [s' Hs']. destruct (first_deposit_Ok s env amount contestId s' Hz Hs')
        as (Hc & Ha & Ht).
      apply deposit_Ok in Hs'. destruct Hs' as (Hpos & Hact & Hfin & _).
      split_conj; assumption.
    + intros (Hpos & Hact & Hfin & Hc & Ha & Ht).
      apply first_deposit_accepted; assumption.
Qed.

Lemma deposit_guards_witness :
  deposit funded (mkEnv alice 5) 0 1 = Revert InvalidAmount /\
  deposit funded (mkEnv alice 5) 7 2 = Revert ContestInactive /\
  exists s', deposit funded (mkEnv deployer 5) 7 1 = Ok s'.
Proof.
  destruct (deposit_guards funded (mkEnv alice 5) 0 1) as (Hzero & _).
  destruct (deposit_guards funded (mkEnv alice 5) 7 2) as (_ & Hinactive & _).
  destruct (deposit_guards funded (mkEnv deployer 5) 7 1) as (_ & _ & _ & Hfirst).
  split; [apply Hzero; lia|].
  split; [apply Hinactive; [lia | vm_compute; reflexivity]|].
  apply Hfirst; [vm_compute; reflexivity|].
  split_conj; vm_compute; try reflexivity; discriminate.
Defined.

(** Property X13. For a participant with a deposit, when the clock is behind
    [lastInterestClaimTime], or [depositAmount * 5], or the annual interest
    times the elapsed seconds, exceeds [uint256], then [claimInterest] and
    [getAccruedInterest] revert with the arithmetic panic, and so does every
    further [deposit] of that participant that passes the guards. *)
Theorem settlement_out_of_range {T : Type} `{!TokenManager T}
    (s : State T) (env : Env) (contestId : Z) :
  let a := msg_sender env in
  let now := block_timestamp env in
  let p := participant s contestId a in
  0 < depositAmount p ->
  now < lastInterestClaimTime p \/
  MAX_UINT256 < depositAmount p * INTEREST_RATE \/
  MAX_UINT256 < depositAmount p * INTEREST_RATE / 100 * (now - lastInterestClaimTime p) ->
  claimInterest s env contestId = Revert (Panic 17) /\
  getAccruedInterest s now contestId a = Revert (Panic 17) /\
  (forall amount,
     0 < amount -> active (contest s contestId) = true -> hasFinished p = false ->
     deposit s env amount contestId = Revert (Panic 17)).
Proof.
  intros a now p Hd Hout. split_conj.
  - apply _claimInterest_out_of_range; assumption.
  - apply getAccruedInterest_out_of_range; assumption.
  - intros amount Hpos Hact Hfin. unfold deposit. fold a p.
    apply Z.ltb_lt in Hpos. rewrite Hpos, Hact, Hfin.
    cbn [negb require mbind result_bind].
    destruct (Z.eqb_spec (depositAmount p) 0) as [Hz|_]; [lia|].
    rewrite _claimInterest_out_of_range by assumption. reflexivity.
Qed.

Lemma settlement_out_of_range_witness :
  claimInterest voted (mkEnv bob 5) 1 = Revert (Panic 17) /\
  getAccruedInterest voted 5 1 bob = Revert (Panic 17).
Proof.
  destruct (settlement_out_of_range voted (mkEnv bob 5) 1) as (Hc & Hg & _).
  - vm_compute. reflexivity.
  - left. vm_compute. reflexivity.
  - split; [exact Hc | exact Hg].
Defined.

(** ** How accrued interest grows and composes *)

Lemma accrualFormula_monotone (d d2 e e2 : Z) :
  0 <= d <= d2 -> 0 <= e <= e2 ->
  accrualFormula d INTEREST_RATE e <= accrualFormula d2 INTEREST_RATE e2.
Proof.
  intros Hd He. unfold accrualFormula, INTEREST_RATE, SECONDS_PER_YEAR.
  apply Z.div_le_mono; [lia|].
  assert (H1 : 0 <= d * 5 / 100) by (apply Z.div_pos; lia).
  assert (H2 : d * 5 / 100 <= d2 * 5 / 100) by (apply Z.div_le_mono; lia).
  apply Z.mul_le_mono_nonneg; lia.
Qed.

(** Prorating over two consecutive stretches gives at most what prorating
    over their union gives, and at most one unit less. *)
Lemma accrualFormula_split (d e1 e2 : Z) :
  0 <= d -> 0 <= e1 -> 0 <= e2 ->
  accrualFormula d INTEREST_RATE e1 + accrualFormula d INTEREST_RATE e2 <=
    accrualFormula d INTEREST_RATE (e1 + e2) <=
  accrualFormula d INTEREST_RATE e1 + accrualFormula d INTEREST_RATE e2 + 1.
Proof.
  intros Hd H1 H2. unfold accrualFormula, INTEREST_RATE.
  assert (Ha : 0 <= d * 5 / 100) by (apply Z.div_pos; lia).
  set (A := d * 5 / 100) in *.
  assert (HY : 0 < SECONDS_PER_YEAR) by reflexivity.
  set (Y := SECONDS_PER_YEAR) in *.
  rewrite Z.mul_add_distr_l.
  pose proof (Z.div_mod (A * e1) Y ltac:(lia)) as E1.
  pose proof (Z.div_mod (A * e2) Y ltac:(lia)) as E2.
  pose proof (Z.mod_pos_bound (A * e1) Y HY) as B1.
  pose proof (Z.mod_pos_bound (A * e2) Y HY) as B2.
  set (q1 := A * e1 / Y) in *. set (q2 := A * e2 / Y) in *.
  set (r1 := (A * e1) mod Y) in *. set (r2 := (A * e2) mod Y) in *.
  rewrite E1, E2.
  replace (Y * q1 + r1 + (Y * q2 + r2)) with ((q1 + q2) * Y + (r1 + r2)) by ring.
  rewrite Z.div_add_l by lia.
  assert (0 <= (r1 + r2) / Y) by (apply Z.div_pos; lia).
  assert ((r1 + r2) / Y <= 1).
  { apply Z.lt_succ_r. apply Z.div_lt_upper_bound; lia. }
  lia.
Qed.

(** Property X14. What [getAccruedInterest] returns never decreases as time
    passes or as the principal is larger: for two readings on records with
    the same [lastInterestClaimTime], the later reading on the larger
    principal is at least the earlier reading on the smaller one, and no
    reading is negative. *)
Theorem accrued_interest_is_monotone {T : Type} `{!TokenManager T}
    (s s2 : State T) (now now2 contestId a v v2 : Z) :
  let p := participant s contestId a in
  let p2 := participant s2 contestId a in
  0 <= depositAmount p <= depositAmount p2 ->
  lastInterestClaimTime p2 = lastInterestClaimTime p ->
  now <= now2 ->
  getAccruedInterest s now contestId a = Ok v ->
  getAccruedInterest s2 now2 contestId a = Ok v2 ->
  0 <= v <= v2.
Proof.
  intros p p2 Hd Hlast Hnow Hv Hv2.
  apply getAccruedInterest_Ok in Hv. apply getAccruedInterest_Ok in Hv2.
  fold p in Hv. fold p2 in Hv2. rewrite Hlast in Hv2.
  destruct Hv as [[Hz ->]|(Hnz & Ht & ->)].
  - split; [lia|]. destruct Hv2 as [[_ ->]|(_ & Ht2 & ->)]; [lia|].
    apply accrualFormula_nonneg; lia.
  - destruct Hv2 as [[Hz2 _]|(_ & Ht2 & ->)]; [lia|].
    split; [apply accrualFormula_nonneg; lia | apply accrualFormula_monotone; lia].
Qed.

Lemma accrued_interest_is_monotone_witness :
  exists v v2,
    getAccruedInterest funded 1000000 1 alice = Ok v /\
    getAccruedInterest funded SECONDS_PER_YEAR 1 alice = Ok v2 /\
    0 <= v <= v2.
Proof.
  destruct (getAccruedInterest funded 1000000 1 alice) as [v|f] eqn:Hv;
    [|vm_compute in Hv; discriminate].
  destruct (getAccruedInterest funded SECONDS_PER_YEAR 1 alice) as [v2|f] eqn:Hv2;
    [|vm_compute in Hv2; discriminate].
  exists v, v2. split; [reflexivity|]. split; [reflexivity|].
  apply (accrued_interest_is_monotone funded funded 1000000 SECONDS_PER_YEAR 1 alice v v2);
    try assumption; try reflexivity.
  - vm_compute. split; discriminate.
  - vm_compute. discriminate.
Defined.

(** Property X15. Claiming in between never yields more: if [claimInterest]
    succeeds at [now] and the unclaimed interest could be read at a later
    time [now2], then what was due at [now] plus what is due at [now2] after
    the claim is at most what would have been due at [now2] without the
    claim, and falls short of it by at most one unit. *)
Theorem claiming_in_between_yields_no_more {T : Type} `{!TokenManager T}
    (s s1 : State T) (env : Env) (contestId now2 v : Z) :
  let a := msg_sender env in
  let now := block_timestamp env in
  claimInterest s env contestId = Ok s1 ->
  now <= now2 ->
  getAccruedInterest s now2 contestId a = Ok v ->
  exists v1 v2,
    getAccruedInterest s now contestId a = Ok v1 /\
    getAccruedInterest s1 now2 contestId a = Ok v2 /\
    v1 + v2 <= v <= v1 + v2 + 1.
Proof.
  intros a now Hclaim Hnow Hv. unfold claimInterest in Hclaim. fold a in Hclaim.
  pose proof (_claimInterest_Ok _ _ _ _ _ Hclaim) as (Hd & Ht & Hm1 & _).
  destruct (_claimInterest_footprint _ _ _ _ _ Hclaim) as (Hp1 & _).
  fold now in Ht, Hp1.
  set (p := participant s contestId a) in *.
  apply getAccruedInterest_Ok_range in Hv; [|fold p; lia]. fold p in Hv.
  destruct Hv as (Ht2 & _ & Hm2 & ->).
  assert (Ha : 0 <= depositAmount p * INTEREST_RATE / 100)
    by (apply Z.div_pos; unfold INTEREST_RATE; lia).
  exists (accrualFormula (depositAmount p) INTEREST_RATE (now - lastInterestClaimTime p)),
         (accrualFormula (depositAmount p) INTEREST_RATE (now2 - now)).
  split_conj.
  - apply getAccruedInterest_succeeds; fold p; try lia. nia.
  - rewrite (getAccruedInterest_succeeds s1 now2 contestId a); rewrite Hp1;
      cbn [depositAmount lastInterestClaimTime with_lastInterestClaimTime];
      try lia; [reflexivity | nia].
  - replace (now2 - lastInterestClaimTime p)
      with ((now - lastInterestClaimTime p) + (now2 - now)) by ring.
    apply accrualFormula_split; lia.
  - replace (now2 - lastInterestClaimTime p)
      with ((now - lastInterestClaimTime p) + (now2 - now)) by ring.
    apply accrualFormula_split; lia.
Qed.

Lemma claiming_in_between_yields_no_more_witness :
  exists s1 v1 v2,
    claimInterest funded (mkEnv alice 1000000) 1 = Ok s1 /\
    getAccruedInterest funded 1000000 1 alice = Ok v1 /\
    getAccruedInterest s1 SECONDS_PER_YEAR 1 alice = Ok v2 /\
    v1 + v2 <= 50 <= v1 + v2 + 1.
Proof.
  destruct (claimInterest funded (mkEnv alice 1000000) 1) as [s1|f] eqn:Hc;
    [|vm_compute in Hc; discriminate].
  destruct (claiming_in_between_yields_no_more funded s1 (mkEnv alice 1000000) 1
              SECONDS_PER_YEAR 50 Hc) as (v1 & v2 & H1 & H2 & H3).
  - vm_compute. discriminate.
  - vm_compute. reflexivity.
  - exists s1, v1, v2. auto.
Defined.

Section Restart.
Context {T : Type} `{!TokenManager T}.
Implicit Types (s : State T) (env : Env).

(** The caller's record after a successful deposit. *)
Lemma deposit_record s env amount contestId s' :
  deposit s env amount contestId = Ok s' ->
  let p := participant s contestId (msg_sender env) in
  0 <= depositAmount p /\ 0 < amount /\
  participant s' contestId (msg_sender env) =
    mkParticipant (depositAmount p + amount) (block_timestamp env) (block_timestamp env)
                  (votesReceived p) (hasVoted p) (hasFinished p).
Proof.
  intros H p. apply deposit_Ok in H. fold p in H.
  destruct H as (Hpos & _ & _ & s1 & Hs1 & ->).
  assert (Hp1 : 0 <= depositAmount p /\
                participant s1 contestId (msg_sender env) =
                with_lastInterestClaimTime p (block_timestamp env)).
  { destruct Hs1 as [[Hz ->]|[_ Hs1]].
    - split; [lia | apply participant_set_participant_eq].
    - pose proof (_claimInterest_Ok _ _ _ _ _ Hs1) as (Hd & _). fold p in Hd.
      split; [lia | apply (_claimInterest_footprint _ _ _ _ _ Hs1)]. }
  destruct Hp1 as [Hd Hp1]. split; [exact Hd|]. split; [exact Hpos|].
  autorewrite with storage. rewrite Hp1. reflexivity.
Qed.

End Restart.

(** Property X16. After a successful [deposit] of [amount] at time [now],
    whatever [getAccruedInterest] later returns for the depositor is the
    interest on the whole new principal for the time since [now] only: the
    added principal earns nothing for the time before it was deposited, and
    read at [now] itself the accrued interest is zero. *)
Theorem deposit_restarts_accrual {T : Type} `{!TokenManager T}
    (s s' : State T) (env : Env) (amount contestId : Z) :
  deposit s env amount contestId = Ok s' ->
  let a := msg_sender env in
  let now := block_timestamp env in
  let principal := depositAmount (participant s contestId a) + amount in
  (forall now2 v,
     getAccruedInterest s' now2 contestId a = Ok v ->
     now <= now2 /\ v = accrualFormula principal INTEREST_RATE (now2 - now)) /\
  (principal * INTEREST_RATE <= MAX_UINT256 ->
   getAccruedInterest s' now contestId a = Ok 0).
Proof.
  intros H a now principal. apply deposit_record in H. fold a now in H.
  destruct H as (Hd & Hpos & Hp). split.
  - intros now2 v Hv. apply getAccruedInterest_Ok_range in Hv; rewrite Hp in *;
      cbn [depositAmount lastInterestClaimTime] in *; [|lia].
    destruct Hv as (Ht & _ & _ & ->). split; [exact Ht | reflexivity].
  - intros Hrange.
    rewrite getAccruedInterest_succeeds; rewrite Hp;
      cbn [depositAmount lastInterestClaimTime]; fold principal.
    + rewrite Z.sub_diag, accrualFormula_no_time. reflexivity.
    + lia.
    + lia.
    + exact Hrange.
    + rewrite Z.sub_diag, Z.mul_0_r. vm_compute. discriminate.
Qed.

Lemma deposit_restarts_accrual_witness :
  exists s', deposit funded (mkEnv alice SECONDS_PER_YEAR) 1000 1 = Ok s' /\
             getAccruedInterest s' SECONDS_PER_YEAR 1 alice = Ok 0.
Proof.
  destruct (deposit funded (mkEnv alice SECONDS_PER_YEAR) 1000 1) as [s'|f] eqn:Hd;
    [|vm_compute in Hd; discriminate].
  exists s'. split; [reflexivity|].
  apply (deposit_restarts_accrual funded s' (mkEnv alice SECONDS_PER_YEAR) 1000 1 Hd).
  vm_compute. discriminate.
Defined.

(** ** Counting votes and depositors *)

Section Measure.
Variable f : Participant -> Z.
Hypothesis f_zero : f zeroParticipant = 0.

Lemma sumOver_insert_fresh (m : gmap Z Participant) (a : Z) (p : Participant) :
  m !! a = None -> sumOver f (<[a := p]> m) = f p + sumOver f m.
Proof.
  intros Hm. unfold sumOver.
  rewrite map_fold_insert_L; [reflexivity | intros; lia | exact Hm].
Qed.

Lemma sumOver_insert (m : gmap Z Participant) (a : Z) (p : Participant) :
  sumOver f (<[a := p]> m) =
  sumOver f m - f (default zeroParticipant (m !! a)) + f p.
Proof.
  destruct (m !! a) as [q|] eqn:Hm; cbn.
  - assert (Hq : sumOver f m = f q + sumOver f (delete a m)).
    { unfold sumOver.
      rewrite (map_fold_delete_L (fun _ r acc => f r + acc) 0 a q m);
        [reflexivity | intros; lia | exact Hm]. }
    rewrite <- insert_delete_eq, sumOver_insert_fresh by apply lookup_delete_eq.
    lia.
  - rewrite sumOver_insert_fresh by exact Hm. lia.
Qed.

Lemma sumOver_zero (m : gmap Z Participant) :
  (forall a p, m !! a = Some p -> f p = 0) -> sumOver f m = 0.
Proof.
  induction m as [|a p m Hm IH] using map_ind; intros Hall.
  - apply map_fold_empty.
  - rewrite sumOver_insert_fresh by exact Hm.
    rewrite (Hall a p) by apply lookup_insert_eq.
    rewrite IH; [reflexivity|]. intros b q Hb. apply (Hall b q).
    rewrite lookup_insert_ne; [exact Hb|]. intros ->. congruence.
Qed.

Context {T : Type} `{!TokenManager T}.
Implicit Types (s : State T) (env : Env).

Lemma sumOver_set_participant s i a p j :
  sumOver f (participantsOf (set_participant s i a p) j) =
  if decide (i = j)
  then sumOver f (participantsOf s i) - f (participant s i a) + f p
  else sumOver f (participantsOf s j).
Proof.
  rewrite participantsOf_set_participant. destruct (decide (i = j)); [|reflexivity].
  apply sumOver_insert.
Qed.

Lemma sumOver_unfunded s j :
  (forall b, f (participant s j b) = 0) -> sumOver f (participantsOf s j) = 0.
Proof.
  intros Hall. apply sumOver_zero. intros b p Hb.
  specialize (Hall b). unfold participant in Hall. rewrite Hb in Hall. exact Hall.
Qed.

(** The measure does not look at the two time stamps of a record. *)
Hypothesis f_claimTime : forall p t, f (with_lastInterestClaimTime p t) = f p.

Lemma sumOver_claimInterest s env contestId a s1 j :
  _claimInterest s env contestId a = Ok s1 ->
  sumOver f (participantsOf s1 j) = sumOver f (participantsOf s j).
Proof.
  intros H. apply _claimInterest_Ok in H.
  assert (Hp : sumOver f (participantsOf
                 (set_participant s contestId a
                    (with_lastInterestClaimTime (participant s contestId a)
                       (block_timestamp env))) j) =
               sumOver f (participantsOf s j)).
  { rewrite sumOver_set_participant, f_claimTime.
    destruct (decide (contestId = j)) as [->|_]; lia. }
  destruct H as (_ & _ & _ & [[_ ->]|(_ & t & _ & ->)]); exact Hp.
Qed.

Lemma sumOver_deposit s env amount contestId s' j :
  deposit s env amount contestId = Ok s' ->
  sumOver f (participantsOf s' j) =
  sumOver f (participantsOf s j) +
  (if decide (contestId = j)
   then f (participant s' contestId (msg_sender env)) -
        f (participant s contestId (msg_sender env))
   else 0).
Proof.
  intros H. pose proof (deposit_Ok _ _ _ _ _ H) as (_ & _ & _ & s1 & Hs1 & Hs').
  cbv zeta in Hs'.
  assert (H1 : sumOver f (participantsOf s1 j) = sumOver f (participantsOf s j) /\
               f (participant s1 contestId (msg_sender env)) =
               f (participant s contestId (msg_sender env))).
  { destruct Hs1 as [[_ ->]|[_ Hs1]].
    - rewrite participant_set_participant_eq, f_claimTime.
      rewrite sumOver_set_participant, f_claimTime.
      change (participantsOf (set_contest s _ _) contestId) with (participantsOf s contestId).
      change (participantsOf (set_contest s _ _) j) with (participantsOf s j).
      rewrite participant_set_contest.
      split; [destruct (decide (contestId = j)) as [->|_]; lia | reflexivity].
    - split; [eapply sumOver_claimInterest; exact Hs1|].
      rewrite (proj1 (_claimInterest_footprint _ _ _ _ _ Hs1)). apply f_claimTime. }
  destruct H1 as [Hsum Hf1]. rewrite <- Hsum, <- Hf1. subst s'.
  rewrite participant_emit, participant_set_contest, participant_set_participant_eq.
  rewrite participantsOf_emit, participantsOf_set_contest.
  rewrite !sumOver_set_participant, participant_set_participant_eq.
  destruct (decide (contestId = j)) as [->|Hne]; [|lia].
  destruct (decide (j = j)); [lia | congruence].
Qed.

Lemma sumOver_vote s env contestId nominee s' j :
  vote s env contestId nominee = Ok s' ->
  let voter := participant s contestId (msg_sender env) in
  let s1 := set_participant s contestId (msg_sender env) (with_hasVoted voter true) in
  let q := participant s1 contestId nominee in
  sumOver f (participantsOf s' j) =
  sumOver f (participantsOf s j) +
  (if decide (contestId = j)
   then (f (with_hasVoted voter true) - f voter) +
        (f (with_votesReceived q (votesReceived q + 1)) - f q)
   else 0).
Proof.
  intros H voter s1 q. apply vote_Ok in H. fold voter s1 q in H.
  destruct H as (_ & _ & _ & _ & _ & ->).
  rewrite participantsOf_emit, sumOver_set_participant. fold q.
  unfold s1 at 1 2. rewrite !sumOver_set_participant. fold voter.
  destruct (decide (contestId = j)) as [->|_]; [|lia].
  destruct (decide (j = j)); [lia | congruence].
Qed.

End Measure.

Section Counting.
Context {T : Type} `{!TokenManager T}.
Implicit Types (s : State T) (env : Env).

(** A call that goes through is one of these. *)
Lemma call_cases s env c s' :
  call s env c = Ok s' ->
  (exists t d g dur i, createContest s env t d g dur = Ok (s', i)) \/
  (exists i amount, deposit s env amount i = Ok s') \/
  (exists i, _claimInterest s env i (msg_sender env) = Ok s') \/
  (exists i nominee, vote s env i nominee = Ok s') \/
  (exists o, s' = emit (set_owner s o) (OwnershipTransferred (owner s) o)).
Proof.
  destruct c as [t d g dur|i amount|i|i nominee|i|o|]; cbn [call]; intros H.
  - left. destruct (createContest s env t d g dur) as [[s0 i]|f] eqn:Hc; [|discriminate].
    injection H as ->. eauto 10.
  - right; left. eauto.
  - right; right; left. eauto.
  - right; right; right; left. eauto.
  - destruct (endContest_never_succeeds s env i) as [f Hf]. congruence.
  - right; right; right; right. unfold transferOwnership in H. invert_Ok H.
    destruct (o =? 0); [discriminate|]. injection H as <-. eauto.
  - right; right; right; right. unfold renounceOwnership in H. invert_Ok H.
    injection H as <-. eauto.
Qed.

End Counting.

(** Property X17. On every storage reached from deployment, in every contest
    the [votesReceived] of the participants add up to the number of
    participants whose [hasVoted] is set: each vote cast is counted once, for
    exactly one nominee. *)
Theorem votes_received_match_votes_cast {T : Type} `{!TokenManager T}
    (n : nat) (s : State T) (contestId : Z) :
  reachable n s ->
  sumVotes (participantsOf s contestId) = countVoted (participantsOf s contestId).
Proof.
  intros Hr. revert contestId.
  induction Hr as [deployer token|n s env c s' Hreach IH Hcall]; intros j.
  - reflexivity.
  - unfold sumVotes, countVoted in *. apply call_cases in Hcall.
    destruct Hcall as [(t & d & g & dur & i & Hc)|[(i & amount & Hd)|[(i & Hc)|
                       [(i & nominee & Hv)|(o & ->)]]]].
    + apply createContest_Ok in Hc. destruct Hc as (_ & _ & ->). apply IH.
    + pose proof (deposit_record _ _ _ _ _ Hd) as (_ & _ & Hrec).
      rewrite (sumOver_deposit votesReceived eq_refl (fun _ _ => eq_refl)
                 _ _ _ _ _ j Hd),
              (sumOver_deposit votedUnit eq_refl (fun _ _ => eq_refl)
                 _ _ _ _ _ j Hd).
      rewrite Hrec, IH. unfold votedUnit. cbn [votesReceived hasVoted].
      destruct (decide (i = j)); lia.
    + rewrite (sumOver_claimInterest votesReceived eq_refl (fun _ _ => eq_refl)
                 _ _ _ _ _ j Hc),
              (sumOver_claimInterest votedUnit eq_refl (fun _ _ => eq_refl)
                 _ _ _ _ _ j Hc).
      apply IH.
    + pose proof (sumOver_vote votesReceived eq_refl _ _ _ _ _ j Hv) as Evotes.
      pose proof (sumOver_vote votedUnit eq_refl _ _ _ _ _ j Hv) as Evoted.
      cbv zeta in Evotes, Evoted. rewrite Evotes, Evoted.
      apply vote_Ok in Hv. destruct Hv as (_ & _ & _ & Hnot & _).
      rewrite IH. unfold votedUnit.
      cbn [votesReceived hasVoted with_hasVoted with_votesReceived].
      rewrite Hnot. destruct (decide (i = j)); [|lia].
      destruct (hasVoted _); lia.
    + apply IH.
Qed.

Lemma votes_received_match_votes_cast_witness :
  sumVotes (participantsOf voted 1) = countVoted (participantsOf voted 1).
Proof.
  destruct (reachable_run (funding ++ voting) O deployed (reachable_deployed deployer []))
    as (m & _ & Hr).
  assert (E : voted = run deployed (funding ++ voting))
    by (unfold voted, funded, run; rewrite foldl_app; reflexivity).
  rewrite E. apply (votes_received_match_votes_cast m _ 1 Hr).
Defined.

Section Enrolment.
Context {T : Type} `{!TokenManager T}.
Implicit Types (s : State T) (env : Env).

(** [deposit] raises [participantsCount] by one exactly for a caller who
    held nothing. *)
Lemma deposit_participantsCount s env amount contestId s' j :
  deposit s env amount contestId = Ok s' ->
  participantsCount (contest s' j) =
  participantsCount (contest s j) +
  (if decide (contestId = j)
   then if depositAmount (participant s contestId (msg_sender env)) =? 0 then 1 else 0
   else 0).
Proof.
  intros H. apply deposit_Ok in H. destruct H as (_ & _ & _ & s1 & Hs1 & ->).
  rewrite contest_emit, contest_set_contest, !contest_set_participant.
  assert (H1 : participantsCount (contest s1 j) =
               participantsCount (contest s j) +
               (if decide (contestId = j)
                then if depositAmount (participant s contestId (msg_sender env)) =? 0
                     then 1 else 0
                else 0)).
  { destruct Hs1 as [[Hz ->]|[Hnz Hs1]].
    - rewrite contest_set_participant, contest_set_contest, Hz.
      destruct (decide (contestId = j)) as [->|_]; [reflexivity | lia].
    - destruct (_claimInterest_keeps_deposits _ _ _ _ _ Hs1) as (_ & _ & Hc & _).
      destruct (Hc j) as (_ & -> & _).
      destruct (Z.eqb_spec (depositAmount (participant s contestId (msg_sender env))) 0);
        [contradiction|].
      destruct (decide (contestId = j)); lia. }
  destruct (decide (contestId = j)) as [->|_]; [exact H1 | exact H1].
Qed.

(** No call writes the [hasFinished] flag of any participant. *)
Lemma call_keeps_hasFinished s env c s' j b :
  call s env c = Ok s' ->
  hasFinished (participant s' j b) = hasFinished (participant s j b).
Proof.
  intros Hcall. apply call_cases in Hcall.
  destruct Hcall as [(t & d & g & dur & i & Hc)|[(i & amount & Hd)|[(i & Hc)|
                     [(i & nominee & Hv)|(o & ->)]]]].
  - apply createContest_Ok in Hc. destruct Hc as (_ & _ & ->). reflexivity.
  - destruct (decide ((j, b) = (i, msg_sender env))) as [[= -> ->]|Hne].
    + pose proof (deposit_record _ _ _ _ _ Hd) as (_ & _ & ->). reflexivity.
    + rewrite (proj1 (deposit_others _ _ _ _ _ Hd) j b Hne). reflexivity.
  - destruct (_claimInterest_footprint _ _ _ _ _ Hc) as (Hp & Ho & _).
    destruct (decide ((j, b) = (i, msg_sender env))) as [[= -> ->]|Hne].
    + rewrite Hp. reflexivity.
    + rewrite (Ho j b Hne). reflexivity.
  - apply vote_Ok in Hv. destruct Hv as (_ & _ & _ & _ & _ & ->).
    rewrite participant_emit, !participant_set_participant.
    destruct (decide (i = j /\ nominee = b)) as [[-> ->]|_].
    + cbn [hasFinished with_votesReceived].
      destruct (decide (j = j /\ msg_sender env = b)) as [[_ <-]|_]; reflexivity.
    + destruct (decide (i = j /\ msg_sender env = b)) as [[-> <-]|_]; reflexivity.
  - reflexivity.
Qed.

Lemma reachable_nobody_finished n s :
  reachable n s -> forall j b, hasFinished (participant s j b) = false.
Proof.
  induction 1 as [deployer token|n s env c s' Hreach IH Hcall]; intros j b.
  - reflexivity.
  - rewrite (call_keeps_hasFinished _ _ _ _ j b Hcall). apply IH.
Qed.

End Enrolment.

(** Property X18. On a storage reached from deployment by fewer than
    [2^256] calls, the [participantsCount] of every contest is the number of
    its participants whose [depositAmount] is not zero. *)
Theorem participantsCount_counts_depositors {T : Type} `{!TokenManager T}
    (n : nat) (s : State T) (contestId : Z) :
  reachable n s -> Z.of_nat n < 2 ^ 256 ->
  participantsCount (contest s contestId) = countFunded (participantsOf s contestId).
Proof.
  intros Hr Hn. revert contestId. unfold countFunded. revert Hn.
  induction Hr as [deployer token|n s env c s' Hreach IH Hcall]; intros Hn j.
  - reflexivity.
  - specialize (IH ltac:(lia)).
    destruct (reachable_invariant n s Hreach) as (Hcount & Hunused & _); [lia|].
    apply call_cases in Hcall.
    destruct Hcall as [(t & d & g & dur & i & Hc)|[(i & amount & Hd)|[(i & Hc)|
                       [(i & nominee & Hv)|(o & ->)]]]].
    + apply createContest_Ok in Hc. destruct Hc as (_ & Hi & ->).
      rewrite Z.mod_small in Hi by lia.
      rewrite contest_emit, contest_set_contest.
      change (participantsOf (emit _ _) j) with (participantsOf s j).
      destruct (decide (i = j)) as [<-|_]; [|apply IH].
      symmetry. apply sumOver_unfunded. intros b. unfold fundedUnit.
      destruct (Hunused i) as [_ Hdep]; [unfold created; lia|].
      rewrite Hdep. reflexivity.
    + pose proof (deposit_record _ _ _ _ _ Hd) as (Hnonneg & Hpos & Hrec).
      rewrite (deposit_participantsCount _ _ _ _ _ j Hd).
      rewrite (sumOver_deposit fundedUnit eq_refl (fun _ _ => eq_refl)
                 _ _ _ _ _ j Hd).
      rewrite Hrec, IH. unfold fundedUnit. cbn [depositAmount].
      destruct (decide (i = j)); [|lia].
      destruct (Z.eqb_spec (depositAmount (participant s i (msg_sender env)) + amount) 0);
        [lia|].
      destruct (Z.eqb_spec (depositAmount (participant s i (msg_sender env))) 0); lia.
    + rewrite (sumOver_claimInterest fundedUnit eq_refl (fun _ _ => eq_refl)
                 _ _ _ _ _ j Hc).
      destruct (_claimInterest_keeps_deposits _ _ _ _ _ Hc) as (_ & _ & Hk & _).
      destruct (Hk j) as (_ & -> & _). apply IH.
    + pose proof (sumOver_vote fundedUnit eq_refl _ _ _ _ _ j Hv) as E.
      cbv zeta in E. rewrite E.
      apply vote_Ok in Hv. destruct Hv as (_ & _ & _ & _ & _ & ->).
      rewrite contest_emit, !contest_set_participant, IH.
      unfold fundedUnit. cbn [depositAmount with_hasVoted with_votesReceived].
      destruct (decide (i = j)); lia.
    + apply IH.
Qed.

Lemma participantsCount_counts_depositors_witness :
  participantsCount (contest funded 1) = countFunded (participantsOf funded 1).
Proof.
  destruct (reachable_run funding O deployed (reachable_deployed deployer []))
    as (m & Hm & Hr).
  cbn [length funding Nat.add] in Hm. fold funded in Hr.
  apply (participantsCount_counts_depositors m funded 1 Hr).
  apply Z.le_lt_trans with 3; [lia | reflexivity].
Defined.

(** ** The ways the calls fail *)

Lemma bind_Revert {A B : Type} (m : Result A) (k : A -> Result B) (f : Failure) :
  m ≫= k = Revert f -> m = Revert f \/ exists a, m = Ok a /\ k a = Revert f.
Proof.
  destruct m as [a|f0]; cbn; intros H.
  - right. exists a. split; [reflexivity | exact H].
  - left. injection H as <-. reflexivity.
Qed.

Lemma require_Revert (cond : bool) (reason : string) (f : Failure) :
  require cond reason = Revert f -> cond = false /\ f = Error reason.
Proof. destruct cond; cbn; [discriminate|]. intros [= <-]. auto. Qed.

Lemma checked_add_Revert (a b : Z) (f : Failure) :
  checked_add a b = Revert f -> f = Panic 17.
Proof. unfold checked_add. destruct (_ <=? _); [discriminate|]. congruence. Qed.

Lemma checked_sub_Revert (a b : Z) (f : Failure) :
  checked_sub a b = Revert f -> f = Panic 17.
Proof. unfold checked_sub. destruct (_ <=? _); [discriminate|]. congruence. Qed.

Lemma checked_mul_Revert (a b : Z) (f : Failure) :
  checked_mul a b = Revert f -> f = Panic 17.
Proof. unfold checked_mul. destruct (_ <=? _); [discriminate|]. congruence. Qed.

(** Splits a hypothesis [H : ... = Revert _] along the binds of a function
    body: one goal for each require or checked operation that failed, and
    one for the rest of the body. *)
Ltac invert_Revert H :=
  repeat match type of H with
    | mbind _ (require _ _) = Revert _ =>
        apply bind_Revert in H; destruct H as [H|(? & _ & H)];
        [apply require_Revert in H; destruct H as [? ->] | ]
    | mbind _ (checked_add _ _) = Revert _ =>
        apply bind_Revert in H; destruct H as [H|(? & _ & H)];
        [apply checked_add_Revert in H; subst | ]
    | mbind _ (checked_sub _ _) = Revert _ =>
        apply bind_Revert in H; destruct H as [H|(? & _ & H)];
        [apply checked_sub_Revert in H; subst | ]
    | mbind _ (checked_mul _ _) = Revert _ =>
        apply bind_Revert in H; destruct H as [H|(? & _ & H)];
        [apply checked_mul_Revert in H; subst | ]
    end.

Section Failures.
Context {T : Type} `{!TokenManager T}.
Implicit Types (s : State T) (env : Env).

Lemma _claimInterest_Revert s env contestId a f :
  _claimInterest s env contestId a = Revert f ->
  f = NoDeposit \/ f = Panic 17 \/ f = MintReverted.
Proof.
  intros H. unfold _claimInterest in H. cbv zeta in H. invert_Revert H; auto.
  destruct (0 <? _); [|discriminate].
  destruct (mint _ _ _); [|injection H as <-; auto].
  invert_Revert H; [auto | discriminate].
Qed.

Lemma deposit_Revert s env amount contestId f :
  deposit s env amount contestId = Revert f ->
  f = InvalidAmount \/ f = ContestInactive \/
  (f = AlreadyFinished /\
   hasFinished (participant s contestId (msg_sender env)) = true) \/
  f = NoDeposit \/ f = Panic 17 \/ f = MintReverted.
Proof.
  intros H. unfold deposit in H. invert_Revert H; auto.
  - right; right; left. split; [reflexivity|]. apply negb_false_iff. assumption.
  - apply bind_Revert in H. destruct H as [H|(s1 & _ & H)].
    + destruct (_ =? 0).
      * invert_Revert H; [auto 10 | discriminate].
      * apply _claimInterest_Revert in H. intuition.
    + invert_Revert H; [auto 10 | auto 10 | discriminate].
Qed.

Lemma vote_Revert s env contestId nominee f :
  vote s env contestId nominee = Revert f ->
  f = VotingClosed \/ f = ContestInactive \/ f = NotAParticipant \/
  f = AlreadyVoted \/ f = NomineeNotParticipant \/ f = Panic 17.
Proof.
  intros H. unfold vote in H. cbv zeta in H. invert_Revert H; auto 10.
  discriminate.
Qed.

End Failures.

(** Property X19. The only ways [claimInterest], [deposit] and [vote] fail:
    [claimInterest] with [NoDeposit], the arithmetic panic or a reverted
    mint; [deposit] with one of its three guards or one of the failures of
    the settlement it runs; [vote] with one of its five guards or the
    arithmetic panic of the vote counter. *)
Theorem failures_of_the_calls {T : Type} `{!TokenManager T}
    (s : State T) (env : Env) (contestId : Z) (f : Failure) :
  (claimInterest s env contestId = Revert f ->
   f = NoDeposit \/ f = Panic 17 \/ f = MintReverted) /\
  (forall amount,
     deposit s env amount contestId = Revert f ->
     f = InvalidAmount \/ f = ContestInactive \/ f = AlreadyFinished \/
     f = NoDeposit \/ f = Panic 17 \/ f = MintReverted) /\
  (forall nominee,
     vote s env contestId nominee = Revert f ->
     f = VotingClosed \/ f = ContestInactive \/ f = NotAParticipant \/
     f = AlreadyVoted \/ f = NomineeNotParticipant \/ f = Panic 17).
Proof.
  split_conj.
  - apply _claimInterest_Revert.
  - intros amount H. apply deposit_Revert in H. intuition.
  - intros nominee. apply vote_Revert.
Qed.

Lemma failures_of_the_calls_witness :
  NotAParticipant = VotingClosed \/ NotAParticipant = ContestInactive \/
  NotAParticipant = NotAParticipant \/ NotAParticipant = AlreadyVoted \/
  NotAParticipant = NomineeNotParticipant \/ NotAParticipant = Panic 17.
Proof.
  destruct (failures_of_the_calls funded (mkEnv deployer 5) 1 NotAParticipant)
    as (_ & _ & Hvote).
  apply (Hvote alice). vm_compute. reflexivity.
Defined.

(** Property X20. On every storage reached from deployment no participant
    has [hasFinished] set, since no call writes the flag; so [deposit] never
    fails with [AlreadyFinished]. *)
Theorem hasFinished_is_never_set {T : Type} `{!TokenManager T}
    (n : nat) (s : State T) :
  reachable n s ->
  (forall contestId a, hasFinished (participant s contestId a) = false) /\
  (forall env amount contestId,
     deposit s env amount contestId <> Revert AlreadyFinished).
Proof.
  intros Hr. pose proof (reachable_nobody_finished n s Hr) as Hnone.
  split; [exact Hnone|]. intros env amount contestId H.
  apply deposit_Revert in H.
  destruct H as [H|[H|[[_ H]|[H|[H|H]]]]]; try discriminate.
  rewrite Hnone in H. discriminate.
Qed.

Lemma hasFinished_is_never_set_witness :
  hasFinished (participant voted 1 bob) = false.
Proof.
  destruct (reachable_run (funding ++ voting) O deployed (reachable_deployed deployer []))
    as (m & _ & Hr).
  assert (E : voted = run deployed (funding ++ voting))
    by (unfold voted, funded, run; rewrite foldl_app; reflexivity).
  rewrite E. apply (hasFinished_is_never_set m _ Hr).
Defined.

(** ** The event log *)

Lemma interestClaimedFor_app (contestId : Z) (new old : list Event) :
  interestClaimedFor contestId (new ++ old) =
  interestClaimedFor contestId new + interestClaimedFor contestId old.
Proof.
  induction new as [|e new IH]; [reflexivity|].
  destruct e; cbn [app interestClaimedFor]; rewrite IH; lia.
Qed.

Section Log.
Context {T : Type} `{!TokenManager T}.
Implicit Types (s : State T) (env : Env).

(** What a settlement adds to the log and to the interest total: the same
    amount, for its own contest, and only for a caller with a deposit. *)
Lemma _claimInterest_log s env contestId a s1 :
  _claimInterest s env contestId a = Ok s1 ->
  exists amt new,
    0 <= amt /\ 0 < depositAmount (participant s contestId a) /\
    events s1 = (new ++ events s)%list /\
    existsb isWinnerAnnounced new = false /\
    _contestCounter s1 = _contestCounter s /\
    forall j,
      interestClaimedFor j new = (if decide (contestId = j) then amt else 0) /\
      totalInterestGenerated (contest s1 j) =
      totalInterestGenerated (contest s j) + (if decide (contestId = j) then amt else 0).
Proof.
  intros H. apply _claimInterest_Ok in H.
  destruct H as (Hd & _ & _ & [[_ ->]|(Hpos & t & _ & ->)]).
  - exists 0, []. split_conj; try reflexivity; try lia; try assumption.
    intros j. rewrite contest_set_participant.
    destruct (decide (contestId = j)); split; try reflexivity; lia.
  - match type of Hpos with
    | 0 < ?x => exists x, [InterestClaimed a contestId x]
    end.
    split_conj; try reflexivity; try assumption; [lia|].
    intros j. cbn [interestClaimedFor]. rewrite contest_emit, contest_set_contest.
    destruct (decide (contestId = j)) as [->|Hne].
    + rewrite Z.eqb_refl. cbn [totalInterestGenerated with_totalInterestGenerated].
      split; [lia | reflexivity].
    + destruct (Z.eqb_spec contestId j); [contradiction|].
      split; [reflexivity | autorewrite with storage; lia].
Qed.

Lemma deposit_log s env amount contestId s' :
  deposit s env amount contestId = Ok s' ->
  exists amt new,
    0 <= amt /\
    (0 < amt -> 0 < depositAmount (participant s contestId (msg_sender env))) /\
    events s' = (new ++ events s)%list /\
    existsb isWinnerAnnounced new = false /\
    _contestCounter s' = _contestCounter s /\
    forall j,
      interestClaimedFor j new = (if decide (contestId = j) then amt else 0) /\
      totalInterestGenerated (contest s' j) =
      totalInterestGenerated (contest s j) + (if decide (contestId = j) then amt else 0).
Proof.
  intros H. apply deposit_Ok in H. destruct H as (_ & _ & _ & s1 & Hs1 & ->).
  assert (H1 : exists amt new,
    0 <= amt /\
    (0 < amt -> 0 < depositAmount (participant s contestId (msg_sender env))) /\
    events s1 = (new ++ events s)%list /\
    existsb isWinnerAnnounced new = false /\
    _contestCounter s1 = _contestCounter s /\
    forall j,
      interestClaimedFor j new = (if decide (contestId = j) then amt else 0) /\
      totalInterestGenerated (contest s1 j) =
      totalInterestGenerated (contest s j) + (if decide (contestId = j) then amt else 0)).
  { destruct Hs1 as [[_ ->]|[_ Hs1]].
    - exists 0, []. split_conj; try reflexivity; try lia.
      intros j. rewrite contest_set_participant, contest_set_contest.
      destruct (decide (contestId = j)) as [->|_]; split; try reflexivity;
        cbn [totalInterestGenerated with_participantsCount]; lia.
    - destruct (_claimInterest_log _ _ _ _ _ Hs1) as (amt & new & ? & ? & ? & ? & ? & ?).
      exists amt, new. split_conj; auto. }
  destruct H1 as (amt & new & Hamt & Hdep & Hev & Hno & Hctr & Hj).
  exists amt, (ParticipantJoined contestId (msg_sender env) amount :: new).
  split_conj; try assumption.
  - cbn [events emit set_contest set_participant]. rewrite Hev. reflexivity.
  - intros j. destruct (Hj j) as [Hi Ht]. cbn [interestClaimedFor]. split; [exact Hi|].
    rewrite contest_emit, contest_set_contest, !contest_set_participant.
    destruct (decide (contestId = j)) as [->|_]; exact Ht.
Qed.

(** What any successful call adds to the log. *)
Lemma call_log s env c s' :
  call s env c = Ok s' ->
  exists new,
    events s' = (new ++ events s)%list /\ existsb isWinnerAnnounced new = false /\
    ((exists i c0,
        i = (_contestCounter s + 1) mod 2 ^ 256 /\ _contestCounter s' = i /\
        totalInterestGenerated c0 = 0 /\
        (forall j, interestClaimedFor j new = 0) /\
        (forall j, contest s' j = if decide (i = j) then c0 else contest s j)) \/
     (exists i amt,
        0 <= amt /\
        (0 < amt -> 0 < depositAmount (participant s i (msg_sender env))) /\
        _contestCounter s' = _contestCounter s /\
        forall j,
          interestClaimedFor j new = (if decide (i = j) then amt else 0) /\
          totalInterestGenerated (contest s' j) =
          totalInterestGenerated (contest s j) + (if decide (i = j) then amt else 0))).
Proof.
  intros Hcall. apply call_cases in Hcall.
  destruct Hcall as [(t & d & g & dur & i & Hc)|[(i & amount & Hd)|[(i & Hc)|
                     [(i & nominee & Hv)|(o & ->)]]]].
  - apply createContest_Ok in Hc. destruct Hc as (_ & Hi & ->).
    exists [ContestCreated i t (block_timestamp env + dur)].
    split; [reflexivity|]. split; [reflexivity|]. left.
    exists i, (mkContestDetails t d g 0 0 0 (block_timestamp env + dur) true).
    split; [exact Hi|].
    split; [cbn [_contestCounter emit set_contest increment]; congruence|].
    split; [reflexivity|]. split; [intros j; reflexivity|].
    intros j. rewrite contest_emit, contest_set_contest. reflexivity.
  - destruct (deposit_log _ _ _ _ _ Hd) as (amt & new & ? & ? & ? & ? & ? & ?).
    exists new. split; [assumption|]. split; [assumption|]. right.
    exists i, amt. auto.
  - destruct (_claimInterest_log _ _ _ _ _ Hc) as (amt & new & ? & ? & ? & ? & ? & ?).
    exists new. split; [assumption|]. split; [assumption|]. right.
    exists i, amt. auto.
  - apply vote_Ok in Hv. destruct Hv as (_ & _ & _ & _ & _ & ->).
    exists [Voted i (msg_sender env) nominee].
    split; [reflexivity|]. split; [reflexivity|]. right.
    exists i, 0. split_conj; try reflexivity; try lia.
    intros j. cbn [interestClaimedFor]. rewrite contest_emit, !contest_set_participant.
    destruct (decide (i = j)); split; try reflexivity; lia.
  - exists [OwnershipTransferred (owner s) o].
    split; [reflexivity|]. split; [reflexivity|]. right.
    exists 0, 0. split_conj; try reflexivity; try lia.
    intros j. cbn [interestClaimedFor]. rewrite contest_emit.
    change (contest (set_owner s o) j) with (contest s j).
    destruct (decide (0 = j)); split; try reflexivity; lia.
Qed.

Lemma reachable_interest_logged n s :
  reachable n s -> Z.of_nat n < 2 ^ 256 ->
  (forall j, interestClaimedFor j (events s) = totalInterestGenerated (contest s j)) /\
  (forall j, ~ created s j -> totalInterestGenerated (contest s j) = 0).
Proof.
  induction 1 as [deployer token|n s env c s' Hreach IH Hcall]; intros Hn.
  - split; intros j; reflexivity.
  - destruct IH as [Hlog Hzero]; [lia|].
    destruct (reachable_invariant n s Hreach) as (Hcount & Hunused & _); [lia|].
    destruct (call_log _ _ _ _ Hcall) as (new & Hev & _ & Hkind).
    rewrite Hev.
    destruct Hkind as [(i & c0 & Hi & Hctr & Hc0 & Hnone & Hcontest)|
                       (i & amt & Hamt & Hdep & Hctr & Hj)].
    + rewrite Z.mod_small in Hi by lia. split.
      * intros j. rewrite interestClaimedFor_app, Hnone, Hcontest, Hlog.
        destruct (decide (i = j)) as [<-|_]; [|reflexivity].
        rewrite Hc0. apply Hzero. unfold created. lia.
      * intros j Hj. unfold created in Hj. rewrite Hctr in Hj. rewrite Hcontest.
        destruct (decide (i = j)); [lia|]. apply Hzero. unfold created. lia.
    + split.
      * intros j. destruct (Hj j) as [Hnew Htot].
        rewrite interestClaimedFor_app, Hnew, Htot, Hlog. lia.
      * intros j Hcr. unfold created in Hcr. rewrite Hctr in Hcr.
        destruct (Hj j) as [_ Htot]. rewrite Htot, (Hzero j Hcr).
        destruct (decide (i = j)) as [->|_]; [|reflexivity].
        destruct (Z.eq_dec amt 0) as [->|Hne]; [reflexivity|].
        destruct (Hunused j Hcr) as [_ Hnodep].
        specialize (Hdep ltac:(lia)). rewrite Hnodep in Hdep. lia.
Qed.

End Log.

(** Property X21. On every storage reached from deployment the log holds no
    [WinnerAnnounced] event: no winner is ever announced. *)
Theorem WinnerAnnounced_is_never_emitted {T : Type} `{!TokenManager T}
    (n : nat) (s : State T) :
  reachable n s -> existsb isWinnerAnnounced (events s) = false.
Proof.
  induction 1 as [deployer token|n s env c s' Hreach IH Hcall]; [reflexivity|].
  destruct (call_log _ _ _ _ Hcall) as (new & -> & Hnew & _).
  rewrite existsb_app, Hnew, IH. reflexivity.
Qed.

Lemma WinnerAnnounced_is_never_emitted_witness :
  existsb isWinnerAnnounced
    (events (run voted [(mkEnv deployer 4000, EndContest 1)])) = false.
Proof.
  destruct (reachable_run (funding ++ voting ++ [(mkEnv deployer 4000, EndContest 1)])
              O deployed (reachable_deployed deployer [])) as (m & _ & Hr).
  assert (E : run voted [(mkEnv deployer 4000, EndContest 1)] =
              run deployed (funding ++ voting ++ [(mkEnv deployer 4000, EndContest 1)]))
    by (unfold voted, funded, run; rewrite !foldl_app; reflexivity).
  rewrite E. apply (WinnerAnnounced_is_never_emitted m _ Hr).
Defined.

(** Property X22. On a storage reached from deployment by fewer than [2^256]
    calls, the [totalInterestGenerated] of every contest is the sum of the
    amounts of the [InterestClaimed] events logged for that contest. *)
Theorem totalInterestGenerated_is_logged {T : Type} `{!TokenManager T}
    (n : nat) (s : State T) (contestId : Z) :
  reachable n s -> Z.of_nat n < 2 ^ 256 ->
  totalInterestGenerated (contest s contestId) =
  interestClaimedFor contestId (events s).
Proof.
  intros Hr Hn. symmetry. apply (reachable_interest_logged n s Hr Hn).
Qed.

Lemma totalInterestGenerated_is_logged_witness :
  totalInterestGenerated
    (contest (run funded [(mkEnv alice SECONDS_PER_YEAR, ClaimInterest 1)]) 1) =
  interestClaimedFor 1
    (events (run funded [(mkEnv alice SECONDS_PER_YEAR, ClaimInterest 1)])).
Proof.
  destruct (reachable_run (funding ++ [(mkEnv alice SECONDS_PER_YEAR, ClaimInterest 1)])
              O deployed (reachable_deployed deployer [])) as (m & Hm & Hr).
  assert (E : run funded [(mkEnv alice SECONDS_PER_YEAR, ClaimInterest 1)] =
              run deployed (funding ++ [(mkEnv alice SECONDS_PER_YEAR, ClaimInterest 1)]))
    by (unfold funded, run; rewrite !foldl_app; reflexivity).
  rewrite E. apply (totalInterestGenerated_is_logged m _ 1 Hr).
  apply Z.le_lt_trans with 4; [|reflexivity].
  rewrite length_app in Hm. cbn [length funding Nat.add] in Hm. lia.
Defined.

(** ** Who votes and who is voted for *)

(** Property X23. On every storage reached from deployment, a participant
    whose [hasVoted] is set, or who has received a vote, holds a deposit in
    that contest: only depositors vote, and only depositors are voted
    for. *)
Theorem voters_and_nominees_hold_deposits {T : Type} `{!TokenManager T}
    (n : nat) (s : State T) (contestId a : Z) :
  reachable n s ->
  hasVoted (participant s contestId a) = true \/
  0 < votesReceived (participant s contestId a) ->
  0 < depositAmount (participant s contestId a).
Proof.
  intros Hr. revert contestId a.
  induction Hr as [deployer token|n s env c s' Hreach IH Hcall]; intros j b.
  - assert (E : participant (constructor deployer token) j b = zeroParticipant)
      by reflexivity.
    rewrite E. cbn. intros [Hv|Hv]; [discriminate | lia].
  - apply call_cases in Hcall.
    destruct Hcall as [(t & d & g & dur & i & Hc)|[(i & amount & Hd)|[(i & Hc)|
                       [(i & nominee & Hv)|(o & ->)]]]].
    + apply createContest_Ok in Hc. destruct Hc as (_ & _ & ->). apply IH.
    + destruct (decide ((j, b) = (i, msg_sender env))) as [[= -> ->]|Hne].
      * pose proof (deposit_record _ _ _ _ _ Hd) as (Hnonneg & Hpos & ->).
        cbn [depositAmount]. lia.
      * rewrite (proj1 (deposit_others _ _ _ _ _ Hd) j b Hne). apply IH.
    + destruct (_claimInterest_footprint _ _ _ _ _ Hc) as (Hp & Ho & _).
      destruct (decide ((j, b) = (i, msg_sender env))) as [[= -> ->]|Hne].
      * rewrite Hp. apply IH.
      * rewrite (Ho j b Hne). apply IH.
    + apply vote_Ok in Hv. destruct Hv as (_ & _ & Hvoter & _ & Hnominee & ->).
      rewrite participant_emit, !participant_set_participant.
      destruct (decide (i = j /\ nominee = b)) as [[-> ->]|_].
      * intros _. cbn [depositAmount with_votesReceived].
        destruct (decide (j = j /\ msg_sender env = b)) as [[_ <-]|_]; assumption.
      * destruct (decide (i = j /\ msg_sender env = b)) as [[-> <-]|_].
        -- intros _. exact Hvoter.
        -- apply IH.
    + apply IH.
Qed.

Lemma voters_and_nominees_hold_deposits_witness :
  0 < depositAmount (participant voted 1 bob).
Proof.
  destruct (reachable_run (funding ++ voting) O deployed (reachable_deployed deployer []))
    as (m & _ & Hr).
  assert (E : voted = run deployed (funding ++ voting))
    by (unfold voted, funded, run; rewrite foldl_app; reflexivity).
  rewrite E. apply (voters_and_nominees_hold_deposits m _ 1 bob Hr).
  right. rewrite <- E. vm_compute. reflexivity.
Defined.
